(** * The Alt-Svc cache of cmcurl (Utilities/cmcurl/lib/altsvc.c)

    A shallow embedding of the cache engine: entry creation, origin flush,
    lookup with lazy eviction, the header parser and the loader of one line
    of the cache file.

    Conventions of the embedding.
    - A C string is a [string] without NUL bytes; a pointer into it is the
      suffix that starts there, [peek] is [*p] (NUL at the end) and
      [advance] is [p++].
    - A (pointer, length) pair (struct Curl_str, or [dsthost]/[dstlen]) is
      the string of those [length] bytes.
    - The linked list [asi->list] is a [list altsvc] in insertion order;
      [Curl_llist_append] is [l ++ [e]] and [Curl_node_remove] drops the
      element.
    - Integers are in [Z]; a conversion to a narrower or signed C type is
      written out where the source has one.
    - Allocation (calloc, Curl_memdup0) is taken to succeed.
    - [time(NULL)] is a parameter of the operation that reads the clock. *)

From Stdlib Require Import ZArith List String Ascii Bool Arith Lia.
Import ListNotations.

Open Scope string_scope.
Open Scope list_scope.
Open Scope nat_scope.

(** ** Characters and C strings *)

Definition NUL : ascii := "000"%char.

Definition peek (p : string) : ascii :=
  match p with
  | EmptyString => NUL
  | String c _ => c
  end.

Definition advance (p : string) : string :=
  match p with
  | EmptyString => EmptyString
  | String _ r => r
  end.

Definition is_nul (c : ascii) : bool := Ascii.eqb c NUL.

Definition code (c : ascii) : nat := nat_of_ascii c.

Definition in_range (lo hi : nat) (c : ascii) : bool :=
  (lo <=? code c) && (code c <=? hi).

(** curl_ctype.h *)
Definition ISBLANK (c : ascii) : bool := Ascii.eqb c " " || Ascii.eqb c "009".
Definition ISNEWLINE (c : ascii) : bool := Ascii.eqb c "010" || Ascii.eqb c "013".
Definition ISDIGIT (c : ascii) : bool := in_range 48 57 c.
Definition ISUPPER (c : ascii) : bool := in_range 65 90 c.
Definition ISLOWER (c : ascii) : bool := in_range 97 122 c.
Definition ISALNUM (c : ascii) : bool := ISDIGIT c || ISUPPER c || ISLOWER c.
(** isspace() in the C locale, used by strtoul *)
Definition ISSPACE (c : ascii) : bool := Ascii.eqb c " " || in_range 9 13 c.

(** The double quote, which a string literal cannot hold. *)
Definition DQUOTE : ascii := "034"%char.
Definition dq : string := String DQUOTE EmptyString.

(** [s[i]], NUL when out of range *)
Definition char_at (s : string) (i : nat) : ascii :=
  match String.get i s with
  | Some c => c
  | None => NUL
  end.

(** Curl_memdup0(s, n): the first [n] bytes *)
Definition memdup0 (s : string) (n : nat) : string := substring 0 n s.

(** Modelled from the spec: the case-insensitive ASCII comparison of
    strcase.c, which is not under src (spec section 6 lists it as a consumed
    collaborator).  [Curl_raw_toupper] maps a-z to A-Z and nothing else. *)
Definition Curl_raw_toupper (c : ascii) : ascii :=
  if ISLOWER c then ascii_of_nat (code c - 32) else c.

(** Modelled from the spec: strcasecompare of strcase.c (not under src):
    equal length and equal bytes up to ASCII case. *)
Fixpoint strcasecompare (first second : string) : bool :=
  match first, second with
  | EmptyString, EmptyString => true
  | String a f, String b s =>
      Ascii.eqb (Curl_raw_toupper a) (Curl_raw_toupper b) && strcasecompare f s
  | _, _ => false
  end.

(** Modelled from the spec: strncasecompare of strcase.c (not under src):
    the first [max] bytes are equal up to ASCII case, or both strings end
    before that. *)
Fixpoint strncasecompare (first second : string) (max : nat) : bool :=
  match max with
  | O => true
  | S m =>
      if is_nul (peek first) || is_nul (peek second)
      then Ascii.eqb (Curl_raw_toupper (peek first))
                     (Curl_raw_toupper (peek second))
      else if Ascii.eqb (Curl_raw_toupper (peek first))
                        (Curl_raw_toupper (peek second))
           then strncasecompare (advance first) (advance second) m
           else false
  end.

(** ** Data model *)

(** Modelled from the spec: enum alpnid is declared in a header that is not
    under src.  A closed enumeration of three protocols and an invalid id;
    each real id is a bit of the acceptance bitmask (the CURLALTSVC_H1, _H2
    and _H3 bits) and the invalid id is zero. *)
Inductive alpnid : Type := ALPN_none | ALPN_h1 | ALPN_h2 | ALPN_h3.

Definition alpnid_eqb (a b : alpnid) : bool :=
  match a, b with
  | ALPN_none, ALPN_none | ALPN_h1, ALPN_h1
  | ALPN_h2, ALPN_h2 | ALPN_h3, ALPN_h3 => true
  | _, _ => false
  end.

Definition alpnid_bits (a : alpnid) : Z :=
  match a with
  | ALPN_none => 0
  | ALPN_h1 => 8
  | ALPN_h2 => 16
  | ALPN_h3 => 32
  end%Z.

(** [if(id)] on an enum alpnid *)
Definition alpnid_set (a : alpnid) : bool := negb (alpnid_eqb a ALPN_none).

(** Given the ALPN ID, return the name *)
Definition Curl_alpnid2str (id : alpnid) : string :=
  match id with
  | ALPN_h1 => "h1"
  | ALPN_h2 => "h2"
  | ALPN_h3 => "h3"
  | ALPN_none => ""
  end.

(** struct althost *)
Record althost : Type := mk_althost {
  host : string;
  alpn : alpnid;
  port : Z
}.

(** struct altsvc *)
Record altsvc : Type := mk_altsvc {
  src : althost;
  dst : althost;
  expires : Z;
  persist : bool;
  prio : Z
}.

Definition set_expires (e : altsvc) (t : Z) : altsvc :=
  mk_altsvc (src e) (dst e) t (persist e) (prio e).
Definition set_persist (e : altsvc) (b : bool) : altsvc :=
  mk_altsvc (src e) (dst e) (expires e) b (prio e).
Definition set_prio (e : altsvc) (n : Z) : altsvc :=
  mk_altsvc (src e) (dst e) (expires e) (persist e) n.

Inductive CURLcode : Type :=
| CURLE_OK
| CURLE_BAD_FUNCTION_ARGUMENT.

(** (unsigned short)n *)
Definition to_ushort (n : Z) : Z := (n mod 65536)%Z.

(** ** Entry creation *)

Definition altsvc_createid (srchost dsthost : string)
    (srcalpnid dstalpnid : alpnid) (srcport dstport : Z) : option altsvc :=
  let hlen := String.length srchost in
  let dlen := String.length dsthost in
  if (hlen =? 0) || (dlen =? 0) then None (* bad input *)
  else
    let src_stripped :=
      if (2 <? hlen) && Ascii.eqb (char_at srchost 0) "[" then
        (* IPv6 address, strip off brackets *)
        Some (advance srchost, hlen - 2)
      else if Ascii.eqb (char_at srchost (hlen - 1)) "." then
        (* strip off trailing dot *)
        if hlen - 1 =? 0 then None else Some (srchost, hlen - 1)
      else Some (srchost, hlen) in
    match src_stripped with
    | None => None
    | Some (srchost', hlen') =>
        let '(dsthost', dlen') :=
          if (2 <? dlen) && Ascii.eqb (char_at dsthost 0) "[" then
            (advance dsthost, dlen - 2)
          else (dsthost, dlen) in
        Some (mk_altsvc
                (mk_althost (memdup0 srchost' hlen') srcalpnid
                            (to_ushort srcport))
                (mk_althost (memdup0 dsthost' dlen') dstalpnid
                            (to_ushort dstport))
                0%Z false 0%Z)
    end.

(** ** Host comparison, flush and lookup *)

(** hostcompare() returns true if 'host' matches 'check'. The first host
    argument may have a trailing dot present that will be ignored. *)
Definition hostcompare (host check : string) : bool :=
  let hlen := String.length host in
  let clen := String.length check in
  let hlen :=
    if negb (hlen =? 0) && Ascii.eqb (char_at host (hlen - 1)) "."
    then hlen - 1 else hlen in
  if negb (hlen =? clen) then false
  else strncasecompare host check hlen.

(** altsvc_flush() removes all alternatives for this source origin from the
    list *)
Fixpoint altsvc_flush (asi : list altsvc) (srcalpnid : alpnid)
    (srchost : string) (srcport : Z) : list altsvc :=
  match asi with
  | [] => []
  | e :: n =>
      if alpnid_eqb srcalpnid (alpn (src e))
         && (srcport =? port (src e))%Z
         && hostcompare srchost (host (src e))
      then altsvc_flush n srcalpnid srchost srcport
      else e :: altsvc_flush n srcalpnid srchost srcport
  end.

(** Curl_altsvc_lookup: the entry found, if any, and the list it leaves *)
Fixpoint Curl_altsvc_lookup (asi : list altsvc) (srcalpnid : alpnid)
    (srchost : string) (srcport : Z) (versions : Z) (now : Z)
    : option altsvc * list altsvc :=
  match asi with
  | [] => (None, [])
  | e :: n =>
      if (expires e <? now)%Z then
        (* an expired entry, remove *)
        Curl_altsvc_lookup n srcalpnid srchost srcport versions now
      else if alpnid_eqb (alpn (src e)) srcalpnid
              && hostcompare srchost (host (src e))
              && (port (src e) =? srcport)%Z
              && negb (Z.land versions (alpnid_bits (alpn (dst e))) =? 0)%Z
      then (Some e, e :: n)
      else
        let '(r, n') :=
          Curl_altsvc_lookup n srcalpnid srchost srcport versions now in
        (r, e :: n')
  end.

(** ** What the build supplies from outside altsvc.c

    The widths of [unsigned long] and [time_t] and three functions of other
    files of the library are not under src; the model takes them as the
    fields of a [build]. *)
Record build : Type := mk_build {
  (** number of bits of unsigned long *)
  ulong_bits : Z;
  (** number of bits of the signed type time_t *)
  time_t_bits : Z;
  (** Curl_alpn2alpnid(name, len) of connect.c *)
  Curl_alpn2alpnid : string -> nat -> alpnid;
  (** Curl_getdate_capped(date) of parsedate.c *)
  Curl_getdate_capped : string -> Z
}.

Definition ULONG_MAX (B : build) : Z := (2 ^ ulong_bits B - 1)%Z.
Definition TIME_T_MAX (B : build) : Z := (2 ^ (time_t_bits B - 1) - 1)%Z.
Definition USHRT_MAX : Z := 65535%Z.

(** (time_t)n for an unsigned long n: reduction modulo 2^bits into the
    signed range *)
Definition to_time_t (B : build) (n : Z) : Z :=
  ((n + 2 ^ (time_t_bits B - 1)) mod 2 ^ time_t_bits B
   - 2 ^ (time_t_bits B - 1))%Z.

Definition MAX_ALTSVC_DATELEN : nat := 256.
Definition MAX_ALTSVC_HOSTLEN : nat := 2048.
Definition MAX_ALTSVC_ALPNLEN : nat := 10.

(** Modelled from the spec: Curl_alpn2alpnid is not under src.  Section 4.1:
    exact case-sensitive match of the [len] bytes at [name] against the
    closed set of recognized tokens (the names [Curl_alpnid2str] gives), no
    match gives the invalid id. *)
Definition alpn2alpnid_exact (name : string) (len : nat) : alpnid :=
  let tok := memdup0 name len in
  if String.eqb tok (Curl_alpnid2str ALPN_h1) then ALPN_h1
  else if String.eqb tok (Curl_alpnid2str ALPN_h2) then ALPN_h2
  else if String.eqb tok (Curl_alpnid2str ALPN_h3) then ALPN_h3
  else ALPN_none.

(** ** Pointer steps shared by the scanners *)

(** [while(f( *p )) p++] *)
Fixpoint skip_while (f : ascii -> bool) (p : string) : string :=
  match p with
  | EmptyString => EmptyString
  | String c r => if f c then skip_while f r else p
  end.

(** [p + n] *)
Fixpoint drop (n : nat) (p : string) : string :=
  match n, p with
  | S m, String _ r => drop m r
  | _, _ => p
  end.

(** [q - p] for a pointer [q] reached from [p] *)
Definition ptr_diff (q p : string) : nat := String.length p - String.length q.

(** [q == p] for two pointers into the same string *)
Definition ptr_eqb (q p : string) : bool := String.length q =? String.length p.

(** strlen of a buffer: the bytes before the first NUL *)
Fixpoint cstr (buf : string) : string :=
  match buf with
  | EmptyString => EmptyString
  | String c r => if is_nul c then EmptyString else String c (cstr r)
  end.

(** [n] NUL bytes *)
Fixpoint zeros (n : nat) : string :=
  match n with
  | O => EmptyString
  | S m => String NUL (zeros m)
  end.

(** [memcpy(buf, from, len); buf[len] = 0] on a buffer longer than [len] *)
Definition buf_store (buf from : string) (len : nat) : string :=
  memdup0 from len ++ String NUL (drop (S len) buf).

(** ** strtoul(nptr, &end, 10) of the C library *)

Definition digit_val (c : ascii) : Z := Z.of_nat (code c - 48).

(** the value of the leading decimal digits and the pointer past them *)
Fixpoint digits (p : string) (acc : Z) : Z * string :=
  match p with
  | EmptyString => (acc, p)
  | String c r =>
      if ISDIGIT c then digits r (acc * 10 + digit_val c)%Z else (acc, p)
  end.

(** white space, an optional sign, decimal digits; ULONG_MAX on overflow, the
    negation modulo 2^bits after a minus sign, and [end == nptr] with value 0
    when there is no digit *)
Definition strtoul (B : build) (nptr : string) : Z * string :=
  let s := skip_while ISSPACE nptr in
  let '(neg, s) :=
    if Ascii.eqb (peek s) "-" then (true, advance s)
    else if Ascii.eqb (peek s) "+" then (false, advance s)
    else (false, s) in
  if ISDIGIT (peek s) then
    let '(v, end_ptr) := digits s 0%Z in
    if (ULONG_MAX B <? v)%Z then (ULONG_MAX B, end_ptr)
    else if neg then ((- v) mod 2 ^ ulong_bits B, end_ptr)%Z
    else (v, end_ptr)
  else (0%Z, nptr).

(** ** The header parser *)

Definition getalnum (p : string) (alpnbuf : string)
    : CURLcode * string * string :=
  let buflen := String.length alpnbuf in
  let p := skip_while (fun c => negb (is_nul c) && ISBLANK c) p in
  let protop := p in
  let p :=
    skip_while (fun c => negb (is_nul c) && negb (ISBLANK c)
                         && negb (Ascii.eqb c ";") && negb (Ascii.eqb c "="))
               p in
  let len := ptr_diff p protop in
  if (len =? 0) || (buflen <=? len)
  then (CURLE_BAD_FUNCTION_ARGUMENT, p, alpnbuf)
  else (CURLE_OK, p, buf_store alpnbuf protop len).

Fixpoint str_mem (c : ascii) (set : string) : bool :=
  match set with
  | EmptyString => false
  | String d r => Ascii.eqb c d || str_mem c r
  end.

(** strspn(s, accept) *)
Fixpoint strspn (s accept : string) : nat :=
  match s with
  | EmptyString => 0
  | String c r => if str_mem c accept then S (strspn r accept) else 0
  end.

(** The locals of one alternative when control reaches the store. *)
Record alternative : Type := mk_alternative {
  a_dstalpnid : alpnid;
  a_valid : bool;
  a_dsthost : string;
  a_dstport : Z;
  a_maxage : Z;
  a_persist : bool
}.

(** The host inside the quotes: [None] is the [break] on a bracket that is
    not closed, otherwise [valid], [dsthost] (with its [dstlen] bytes) and
    the pointer after the host. *)
Definition scan_host (srchost : string) (p : string)
    : option (bool * string * string) :=
  if negb (Ascii.eqb (peek p) ":") then
    (* hostname starts here *)
    let hostp := p in
    let scanned :=
      if Ascii.eqb (peek p) "[" then
        (* pass all valid IPv6 letters - does not handle zone id *)
        let p := advance p in
        let dstlen := strspn p "0123456789abcdefABCDEF:." in
        if negb (Ascii.eqb (char_at p dstlen) "]") then None
        else
          (* we store the IPv6 numerical address *with* brackets *)
          let dstlen := dstlen + 2 in
          Some (dstlen, drop (dstlen - 1) p)
      else
        let p :=
          skip_while (fun c => negb (is_nul c)
                               && (ISALNUM c || Ascii.eqb c "."
                                   || Ascii.eqb c "-")) p in
        Some (ptr_diff p hostp, p) in
    match scanned with
    | None => None
    | Some (dstlen, p) =>
        if (dstlen =? 0) || (MAX_ALTSVC_HOSTLEN <=? dstlen)
        then Some (false, "", p)
        else Some (true, memdup0 hostp dstlen, p)
    end
  else
    (* no destination name, use source host *)
    Some (true, srchost, p).

(** The optional port: the new [valid], [dstport] and pointer. *)
Definition scan_port (B : build) (p : string) (valid : bool) (dstport : Z)
    : bool * Z * string :=
  if Ascii.eqb (peek p) ":" then
    let p := advance p in
    let '(port, end_ptr) :=
      if ISDIGIT (peek p) then strtoul B p (* a port number *)
      else (0%Z, p) in
    if (port =? 0)%Z || (USHRT_MAX <? port)%Z || ptr_eqb end_ptr p
       || negb (Ascii.eqb (peek end_ptr) DQUOTE)
    then (false, dstport, p)
    else (valid, to_ushort port, end_ptr)
  else (valid, dstport, p).

(** One round of the for(;;) loop over the 'ma' and 'persist' flags. *)
Inductive param_result : Type :=
| Param_done (p : string)   (* break: the flags are over *)
| Param_return              (* return CURLE_OK *)
| Param_next (p : string) (quoted : bool) (maxage : Z) (persist : bool).

(** [quoted] is a local of the alternative, not of the round: it stays set
    once a quoted value was seen. *)
Definition parse_param (B : build) (p : string) (quoted : bool)
    (maxage : Z) (persist : bool) : param_result :=
  let p := skip_while ISBLANK p in
  if negb (Ascii.eqb (peek p) ";") then Param_done p
  else
    let p := advance p in (* pass the semicolon *)
    if is_nul (peek p) || ISNEWLINE (peek p) then Param_done p
    else
      let '(result, p, option) := getalnum p (zeros 32) in
      let option :=
        match result with
        | CURLE_OK => cstr option
        | _ => "" (* skip option if name is too long *)
        end in
      let p := skip_while (fun c => negb (is_nul c) && ISBLANK c) p in
      if negb (Ascii.eqb (peek p) "=") then Param_return
      else
        let p := advance p in
        let p := skip_while (fun c => negb (is_nul c) && ISBLANK c) p in
        if is_nul (peek p) then Param_return
        else
          let '(p, quoted) :=
            if Ascii.eqb (peek p) DQUOTE then (advance p, true) (* quoted value *)
            else (p, quoted) in
          let value_ptr := p in
          let scanned :=
            if quoted then
              let p :=
                skip_while (fun c => negb (is_nul c)
                                     && negb (Ascii.eqb c DQUOTE)) p in
              if is_nul (peek p) then None else Some (advance p)
            else
              Some (skip_while
                      (fun c => negb (is_nul c) && negb (ISBLANK c)
                                && negb (Ascii.eqb c ";")
                                && negb (Ascii.eqb c ",")) p) in
          match scanned with
          | None => Param_return
          | Some p =>
              let '(num, end_ptr) := strtoul B value_ptr in
              if negb (ptr_eqb end_ptr value_ptr) && (num <? ULONG_MAX B)%Z
              then
                if strcasecompare "ma" option
                then Param_next p quoted (to_time_t B num) persist
                else if strcasecompare "persist" option && (num =? 1)%Z
                     then Param_next p quoted maxage true
                     else Param_next p quoted maxage persist
              else Param_next p quoted maxage persist
          end.

Inductive params_result : Type :=
| P_return                                   (* return CURLE_OK *)
| P_done (p : string) (maxage : Z) (persist : bool) (* left the for loop *)
| P_fuel.

(** The for(;;) loop: Handle the optional 'ma' and 'persist' flags. Unknown
    flags are skipped. *)
Fixpoint parse_params (B : build) (fuel : nat) (p : string) (quoted : bool)
    (maxage : Z) (persist : bool) : params_result :=
  match fuel with
  | O => P_fuel
  | S fuel =>
      match parse_param B p quoted maxage persist with
      | Param_done p => P_done p maxage persist
      | Param_return => P_return
      | Param_next p quoted maxage persist =>
          parse_params B fuel p quoted maxage persist
      end
  end.

(** One round of the do-while loop, up to the store. *)
Inductive scan_result : Type :=
| Scan_exit   (* break before the store, or return CURLE_OK *)
| Scan_fuel
| Scan_store (a : alternative) (p : string).

Definition scan_alternative (B : build) (srchost : string) (alpnlen : nat)
    (p alpnbuf : string) (dstport : Z) : scan_result :=
  if Ascii.eqb (peek p) "=" then
    (* [protocol]="[host][:port]" *)
    let dstalpnid := Curl_alpn2alpnid B alpnbuf alpnlen in
    let p := advance p in
    if Ascii.eqb (peek p) DQUOTE then
      let p := advance p in
      match scan_host srchost p with
      | None => Scan_exit (* invalid host syntax, bail out *)
      | Some (valid, dsthost, p) =>
          let '(valid, dstport, p) := scan_port B p valid dstport in
          if negb (Ascii.eqb (peek p) DQUOTE) then Scan_exit
          else
            let p := advance p in
            match parse_params B (S (String.length p)) p false
                               (24 * 3600)%Z false with
            | P_fuel => Scan_fuel
            | P_return => Scan_exit
            | P_done p maxage persist =>
                Scan_store (mk_alternative dstalpnid valid dsthost dstport
                                           maxage persist) p
            end
      end
    else Scan_exit
  else Scan_exit.

(** The end of a round, after the store: a comma brings the next protocol
    token, and the loop goes on while the while condition holds.  [None]
    leaves the loop. *)
Definition next_alternative (p alpnbuf : string) : option (string * string) :=
  let next :=
    (* after the double quote there can be a comma if there is another
       string or a semicolon if no more *)
    if Ascii.eqb (peek p) "," then
      (* comma means another alternative is presented *)
      let '(result, p, alpnbuf) := getalnum (advance p) alpnbuf in
      match result with
      | CURLE_OK => Some (p, alpnbuf)
      | _ => None
      end
    else Some (p, alpnbuf) in
  match next with
  | None => None
  | Some (p, alpnbuf) =>
      if negb (is_nul (peek p)) && negb (Ascii.eqb (peek p) ";")
         && negb (Ascii.eqb (peek p) "010") && negb (Ascii.eqb (peek p) "013")
      then Some (p, alpnbuf)
      else None
  end.

(** The do-while loop over the alternatives, generic in what the store does
    to the state [St]: [store] stands for the block guarded by
    [if(dstalpnid && valid)].  Every exit returns CURLE_OK; [None] is an
    exhausted [fuel]. *)
Fixpoint parse_loop {St : Type} (store : alternative -> St -> St)
    (B : build) (srchost : string) (alpnlen : nat) (fuel : nat)
    (p alpnbuf : string) (dstport : Z) (st : St) : option (CURLcode * St) :=
  match fuel with
  | O => None
  | S fuel =>
      match scan_alternative B srchost alpnlen p alpnbuf dstport with
      | Scan_exit => Some (CURLE_OK, st)
      | Scan_fuel => None
      | Scan_store a p =>
          let st := store a st in
          match next_alternative p alpnbuf with
          | None => Some (CURLE_OK, st)
          | Some (p, alpnbuf) =>
              parse_loop store B srchost alpnlen fuel p alpnbuf
                         (a_dstport a) st
          end
      end
  end.

(** saturating [maxage + secs] of the store *)
Definition expiry (B : build) (maxage secs : Z) : Z :=
  if (TIME_T_MAX B - secs <? maxage)%Z then TIME_T_MAX B
  else (maxage + secs)%Z.

(** The block guarded by [if(dstalpnid && valid)], on the counter [entries]
    and the list; [secs] is what time(NULL) returns. *)
Definition store_alternative (B : build) (srcalpnid : alpnid)
    (srchost : string) (srcport : Z) (secs : Z)
    (a : alternative) (st : nat * list altsvc) : nat * list altsvc :=
  let '(entries, asi) := st in
  if alpnid_set (a_dstalpnid a) && a_valid a then
    let asi :=
      if entries =? 0 then
        (* Flush cached alternatives for this source origin, if any - when
           this is the first entry of the line. *)
        altsvc_flush asi srcalpnid srchost srcport
      else asi in
    let entries := S entries in
    match altsvc_createid srchost (a_dsthost a) srcalpnid (a_dstalpnid a)
                          srcport (a_dstport a) with
    | Some e =>
        let e := set_expires e (expiry B (a_maxage a) secs) in
        let e := set_persist e (a_persist a) in
        (entries, asi ++ [e])
    | None => (entries, asi)
    end
  else st.

(** Curl_altsvc_parse: the result code and the list it leaves. *)
Definition Curl_altsvc_parse (B : build) (asi : list altsvc) (value : string)
    (srcalpnid : alpnid) (srchost : string) (srcport : Z) (secs : Z)
    : option (CURLcode * list altsvc) :=
  let p := value in
  let dstport := srcport in (* the same by default *)
  let '(result, p, alpnbuf) := getalnum p (zeros MAX_ALTSVC_ALPNLEN) in
  let alpnlen := String.length (cstr alpnbuf) in
  match result with
  | CURLE_OK =>
      (* "clear" is a magic keyword *)
      if strcasecompare (cstr alpnbuf) "clear" then
        (* Flush cached alternatives for this source origin *)
        Some (CURLE_OK, altsvc_flush asi srcalpnid srchost srcport)
      else
        match parse_loop (store_alternative B srcalpnid srchost srcport secs)
                         B srchost alpnlen (S (String.length p))
                         p alpnbuf dstport (0, asi) with
        | Some (r, (_, asi)) => Some (r, asi)
        | None => None
        end
  | _ => Some (CURLE_OK, asi) (* Excessive alt-svc header, ignoring. *)
  end.

(** Whether the first token of a header value is the keyword "clear". *)
Definition clear_keyword (value : string) : bool :=
  let '(result, _, alpnbuf) := getalnum value (zeros MAX_ALTSVC_ALPNLEN) in
  match result with
  | CURLE_OK => strcasecompare (cstr alpnbuf) "clear"
  | _ => false
  end.

(** The alternatives with which the scan of a header value reaches the
    store, in order: the loop of [Curl_altsvc_parse], recording instead of
    storing. *)
Definition scanned_alternatives (B : build) (value : string)
    (srchost : string) (srcport : Z) : list alternative :=
  let '(result, p, alpnbuf) := getalnum value (zeros MAX_ALTSVC_ALPNLEN) in
  match result with
  | CURLE_OK =>
      if strcasecompare (cstr alpnbuf) "clear" then []
      else
        match parse_loop (fun a l => l ++ [a]) B srchost
                         (String.length (cstr alpnbuf)) (S (String.length p))
                         p alpnbuf srcport [] with
        | Some (_, l) => l
        | None => []
        end
  | _ => []
  end.

(** An alternative is valid when its destination protocol is a known id and
    its host and port passed the syntax checks. *)
Definition valid_alternative (a : alternative) : bool :=
  alpnid_set (a_dstalpnid a) && a_valid a.

(** The entry a valid alternative is stored as, when its creation succeeds. *)
Definition new_entry (B : build) (srcalpnid : alpnid) (srchost : string)
    (srcport : Z) (secs : Z) (a : alternative) : option altsvc :=
  match altsvc_createid srchost (a_dsthost a) srcalpnid (a_dstalpnid a)
                        srcport (a_dstport a) with
  | Some e =>
      Some (set_persist (set_expires e (expiry B (a_maxage a) secs))
                        (a_persist a))
  | None => None
  end.

Definition new_entries (B : build) (srcalpnid : alpnid) (srchost : string)
    (srcport : Z) (secs : Z) (l : list alternative) : list altsvc :=
  flat_map (fun a =>
              match new_entry B srcalpnid srchost srcport secs a with
              | Some e => [e]
              | None => []
              end) l.

(** ** Loading one line of the cache file *)

(** Modelled from the spec: the tokenizers of strparse.c are not under src.
    Section 4.5 gives what they accept: a word is one byte at least and [max]
    bytes at most and ends at a space or at the end of the line; a number is
    a run of decimal digits whose value is [max] at most; a quoted word is
    between two double quotes and [max] bytes at most; fields are separated
    by one space and the line ends in a newline byte.  Each returns the field
    and the pointer after it, [None] on an error. *)
Definition Curl_str_word (line : string) (max : nat)
    : option (string * string) :=
  let s :=
    skip_while (fun c => negb (is_nul c) && negb (Ascii.eqb c " ")) line in
  let len := ptr_diff s line in
  if (len =? 0) || (max <? len) then None
  else Some (memdup0 line len, s).

Definition Curl_str_singlespace (line : string) : option string :=
  if Ascii.eqb (peek line) " " then Some (advance line) else None.

Definition Curl_str_number (line : string) (max : Z) : option (Z * string) :=
  if ISDIGIT (peek line) then
    let '(num, s) := digits line 0%Z in
    if (max <? num)%Z then None else Some (num, s)
  else None.

Definition Curl_str_quotedword (line : string) (max : nat)
    : option (string * string) :=
  if negb (Ascii.eqb (peek line) DQUOTE) then None
  else
    let s0 := advance line in
    let s :=
      skip_while (fun c => negb (is_nul c) && negb (Ascii.eqb c DQUOTE)) s0 in
    let len := ptr_diff s s0 in
    if max <? len then None
    else if negb (Ascii.eqb (peek s) DQUOTE) then None
    else Some (memdup0 s0 len, advance s).

Definition Curl_str_newline (line : string) : option string :=
  if ISNEWLINE (peek line) then Some (advance line) else None.

Definition altsvc_create (B : build) (srchost dsthost srcalpn dstalpn : string)
    (srcport dstport : Z) : option altsvc :=
  let dstalpnid := Curl_alpn2alpnid B dstalpn (String.length dstalpn) in
  let srcalpnid := Curl_alpn2alpnid B srcalpn (String.length srcalpn) in
  if negb (alpnid_set srcalpnid) || negb (alpnid_set dstalpnid) then None
  else altsvc_createid srchost dsthost srcalpnid dstalpnid srcport dstport.

(** The fields of a line, in the order of the file format. *)
Record line_fields : Type := mk_line_fields {
  f_srcalpn : string;
  f_srchost : string;
  f_srcport : Z;
  f_dstalpn : string;
  f_dsthost : string;
  f_dstport : Z;
  f_date : string;
  f_persist : Z;
  f_prio : Z
}.

Notation "'try' x '<-' e ';' k" :=
  (match e with
   | Some x => k
   | None => None
   end)
  (at level 10, x pattern, e at level 100, k at level 200, only parsing).

(** The chain of tokenizer calls of altsvc_add, which stops at the first
    one that fails. *)
Definition altsvc_fields (line : string) : option line_fields :=
  try (srcalpn, line) <- Curl_str_word line MAX_ALTSVC_ALPNLEN;
  try line <- Curl_str_singlespace line;
  try (srchost, line) <- Curl_str_word line MAX_ALTSVC_HOSTLEN;
  try line <- Curl_str_singlespace line;
  try (srcport, line) <- Curl_str_number line 65535;
  try line <- Curl_str_singlespace line;
  try (dstalpn, line) <- Curl_str_word line MAX_ALTSVC_ALPNLEN;
  try line <- Curl_str_singlespace line;
  try (dsthost, line) <- Curl_str_word line MAX_ALTSVC_HOSTLEN;
  try line <- Curl_str_singlespace line;
  try (dstport, line) <- Curl_str_number line 65535;
  try line <- Curl_str_singlespace line;
  try (date, line) <- Curl_str_quotedword line MAX_ALTSVC_DATELEN;
  try line <- Curl_str_singlespace line;
  try (persist, line) <- Curl_str_number line 1;
  try line <- Curl_str_singlespace line;
  try (prio, line) <- Curl_str_number line 0;
  try _ <- Curl_str_newline line;
  Some (mk_line_fields srcalpn srchost srcport dstalpn dsthost dstport
                       date persist prio).

(** altsvc_add: only returns SERIOUS errors *)
Definition altsvc_add (B : build) (asi : list altsvc) (line : string)
    : CURLcode * list altsvc :=
  match altsvc_fields line with
  | None => (CURLE_OK, asi)
  | Some f =>
      let expires := Curl_getdate_capped B (f_date f) in
      match altsvc_create B (f_srchost f) (f_dsthost f)
                          (f_srcalpn f) (f_dstalpn f)
                          (f_srcport f) (f_dstport f) with
      | Some e =>
          let e := set_expires e expires in
          let e := set_prio e 0%Z in (* not supported to just set zero *)
          let e := set_persist e (negb (f_persist f =? 0)%Z) in
          (CURLE_OK, asi ++ [e])
      | None => (CURLE_OK, asi)
      end
  end.

(** ** Two builds to run the model on *)

(** A fixed clock for the date parser of the examples: the file's dates are
    not interpreted. *)
Definition date_unparsed (_ : string) : Z := 0%Z.

(** 64-bit unsigned long and 64-bit time_t *)
Definition lp64 : build := mk_build 64 64 alpn2alpnid_exact date_unparsed.

(** 32-bit unsigned long and 64-bit time_t *)
Definition llp64 : build := mk_build 32 64 alpn2alpnid_exact date_unparsed.

(** ** Predicates of the statements *)

(** The source of an entry matches the triple of a flush or lookup. *)
Definition origin_matches (srcalpnid : alpnid) (srchost : string)
    (srcport : Z) (s : althost) : bool :=
  alpnid_eqb srcalpnid (alpn s) && (srcport =? port s)%Z
  && hostcompare srchost (host s).

Definition expired (now : Z) (e : altsvc) : bool := (expires e <? now)%Z.

(** The destination protocol's bit is set in the acceptance bitmask. *)
Definition accepted (versions : Z) (e : altsvc) : bool :=
  negb (Z.land versions (alpnid_bits (alpn (dst e))) =? 0)%Z.

(** What a lookup is after: the origin and an accepted destination. *)
Definition wanted (srcalpnid : alpnid) (srchost : string) (srcport : Z)
    (versions : Z) (e : altsvc) : bool :=
  origin_matches srcalpnid srchost srcport (src e) && accepted versions e.

Definition ends_with_dot (s : string) : bool :=
  Ascii.eqb (char_at s (String.length s - 1)) ".".

Definition live (now : Z) (e : altsvc) : bool := negb (expired now e).

(** The invariant of the data model: neither host of an entry is empty. *)
Definition hosts_nonempty (e : altsvc) : Prop :=
  host (src e) <> "" /\ host (dst e) <> "".

(** ** Well-formed fields of a line of the cache file *)

Fixpoint str_forall (f : ascii -> bool) (s : string) : bool :=
  match s with
  | EmptyString => true
  | String c r => f c && str_forall f r
  end.







(** ** Sample inputs *)

Module Samples.


(** h3=":8443", h2="alt.example" *)
Definition two_alternatives : string :=
  ("h3=" ++ dq ++ ":8443" ++ dq ++ ", h2=" ++ dq ++ "alt.example" ++ dq)%string.

(** zz=":1", h3=":8443"; ma=60, h2="alt.example:443" *)
Definition unknown_first : string :=
  ("zz=" ++ dq ++ ":1" ++ dq ++ ", h3=" ++ dq ++ ":8443" ++ dq
   ++ "; ma=60, h2=" ++ dq ++ "alt.example:443" ++ dq)%string.

(** h2=":443"; ma=9223372036854775808 *)
Definition max_age_2_63 : string :=
  ("h2=" ++ dq ++ ":443" ++ dq ++ "; ma=9223372036854775808")%string.

(** h2="other.example:443" *)
Definition other_example_443 : string :=
  ("h2=" ++ dq ++ "other.example:443" ++ dq)%string.


Definition origin (h : string) : althost := mk_althost h ALPN_h1 80%Z.

Definition entry (srchost : string) (dstalpnid : alpnid) (dsthost : string)
    (dstport : Z) (expires : Z) : altsvc :=
  mk_altsvc (origin srchost) (mk_althost dsthost dstalpnid dstport)
            expires false 0%Z.

(** the bits of h1, h2 and h3 *)
Definition all_versions : Z := 56%Z.

(** an entry of the origin and an entry of another host *)
Definition old_cache : list altsvc :=
  [entry "example.com" ALPN_h2 "old.example" 443 5000%Z;
   entry "other.example" ALPN_h2 "alt.other.example" 443 5000%Z].

End Samples.

(** ** Predicates of the further statements *)

(** The test of [altsvc_createid] for a host in brackets. *)
Definition bracketed (s : string) : bool :=
  (2 <? String.length s) && Ascii.eqb (char_at s 0) "[".

(** What every entry of the cache looks like: hosts that are not empty, a
    destination protocol that is a known id, ports of 16 bits and the
    priority 0. *)
Definition entry_ok (e : altsvc) : Prop :=
  hosts_nonempty e
  /\ alpnid_set (alpn (dst e)) = true
  /\ (0 <= port (src e) < 65536)%Z
  /\ (0 <= port (dst e) < 65536)%Z
  /\ prio e = 0%Z.

(** The bytes that end the token of [getalnum]. *)
Definition token_end (c : ascii) : bool :=
  is_nul c || ISBLANK c || Ascii.eqb c ";" || Ascii.eqb c "=".

(** The bytes of a host name without brackets in a header value. *)
Definition host_byte (c : ascii) : bool :=
  negb (is_nul c) && (ISALNUM c || Ascii.eqb c "." || Ascii.eqb c "-").

(** The bytes between the brackets of a host in a header value. *)
Definition ipv6_byte (c : ascii) : bool :=
  str_mem c "0123456789abcdefABCDEF:.".

(** ** The cache object and the load of a file *)

(** struct altsvcinfo *)
Record altsvcinfo : Type := mk_altsvcinfo {
  asi_list : list altsvc;
  asi_filename : option string;
  asi_flags : Z
}.

(** One round of the loop of [altsvc_load] on a line that Curl_get_line
    delivered. *)
Definition load_line (B : build) (asi : list altsvc) (line : string)
    : list altsvc :=
  let lineptr := skip_while (fun c => negb (is_nul c) && ISBLANK c) line in
  if Ascii.eqb (peek lineptr) "#" then
    (* skip commented lines *)
    asi
  else snd (altsvc_add B asi lineptr).

(** altsvc_load: [fp] is what fopen gives, [None] when the file cannot be
    opened, otherwise the lines that Curl_get_line delivers one by one. *)
Definition altsvc_load (B : build) (a : altsvcinfo) (file : string)
    (fp : option (list string)) : CURLcode * altsvcinfo :=
  (* we need a private copy of the filename *)
  let filename := Some file in
  match fp with
  | Some lines =>
      (CURLE_OK,
       mk_altsvcinfo (fold_left (load_line B) lines (asi_list a))
                     filename (asi_flags a))
  | None => (CURLE_OK, mk_altsvcinfo (asi_list a) filename (asi_flags a))
  end.

(** Curl_altsvc_load() loads alt-svc from file. *)
Definition Curl_altsvc_load (B : build) (a : altsvcinfo) (file : string)
    (fp : option (list string)) : CURLcode * altsvcinfo :=
  altsvc_load B a file fp.

(** ** Writing the cache *)

(** struct tm, the fields that [altsvc_out] prints *)
Record tm : Type := mk_tm {
  tm_year : Z;
  tm_mon : Z;
  tm_mday : Z;
  tm_hour : Z;
  tm_min : Z;
  tm_sec : Z
}.

(** What the save takes from outside altsvc.c. *)
Record save_env : Type := mk_save_env {
  (** whether the build defines USE_IPV6 *)
  USE_IPV6 : bool;
  (** Curl_gmtime(t, &stamp): the result code and the stamp *)
  Curl_gmtime : Z -> CURLcode * tm;
  (** 1 == Curl_inet_pton(AF_INET6, host, buf) *)
  Curl_inet_pton6 : string -> bool
}.

Definition digit_char (d : Z) : ascii := ascii_of_nat (48 + Z.to_nat d).

(** The decimal digits of [n], most significant first, in front of [acc]. *)
Fixpoint dec_digits (fuel : nat) (n : Z) (acc : string) : string :=
  match fuel with
  | O => acc
  | S fuel =>
      let acc := String (digit_char (n mod 10)) acc in
      if (n / 10 =? 0)%Z then acc else dec_digits fuel (n / 10) acc
  end.

(** printf("%u") of a value that is not negative *)
Definition fmt_u (n : Z) : string := dec_digits (S (Z.to_nat n)) n "".

(** zeros in front of [s] up to the width [w] *)
Fixpoint pad0 (w : nat) (s : string) : string :=
  match w - String.length s with
  | O => s
  | S _ =>
      match w with
      | O => s
      | S w' => String "0" (pad0 w' s)
      end
  end.

(** printf("%d") *)
Definition fmt_d (n : Z) : string :=
  if (n <? 0)%Z then String "-" (fmt_u (- n)) else fmt_u n.

(** printf("%02d"): the sign counts in the width *)
Definition fmt_02d (n : Z) : string :=
  if (n <? 0)%Z then String "-" (pad0 1 (fmt_u (- n))) else pad0 2 (fmt_u n).

(** The date between the quotes: "%d%02d%02d %02d:%02d:%02d" *)
Definition date_string (stamp : tm) : string :=
  (fmt_d (tm_year stamp + 1900) ++ fmt_02d (tm_mon stamp + 1)
   ++ fmt_02d (tm_mday stamp) ++ " "
   ++ fmt_02d (tm_hour stamp) ++ ":" ++ fmt_02d (tm_min stamp) ++ ":"
   ++ fmt_02d (tm_sec stamp))%string.

(** The host as the file shows it, in brackets when it is an IPv6 address. *)
Definition out_host (E : save_env) (h : string) : string :=
  if USE_IPV6 E && Curl_inet_pton6 E h then ("[" ++ h ++ "]")%string else h.

(** Write this single altsvc entry to a single output line: the result code
    and the line that fprintf writes. *)
Definition altsvc_out (E : save_env) (e : altsvc) : CURLcode * string :=
  let '(result, stamp) := Curl_gmtime E (expires e) in
  match result with
  | CURLE_OK =>
      (CURLE_OK,
       (Curl_alpnid2str (alpn (src e)) ++ " " ++ out_host E (host (src e))
        ++ " " ++ fmt_u (port (src e)) ++ " "
        ++ Curl_alpnid2str (alpn (dst e)) ++ " " ++ out_host E (host (dst e))
        ++ " " ++ fmt_u (port (dst e)) ++ " "
        ++ dq ++ date_string stamp ++ dq ++ " "
        ++ fmt_u (if persist e then 1 else 0) ++ " " ++ fmt_u (prio e)
        ++ String "010" EmptyString)%string)
  | _ => (result, "")
  end.

(** The loop of the save over the list: it stops at the first entry that
    [altsvc_out] fails on; the lines written before stay written. *)
Fixpoint save_entries (E : save_env) (l : list altsvc)
    : CURLcode * list string :=
  match l with
  | [] => (CURLE_OK, [])
  | e :: n =>
      let '(result, line) := altsvc_out E e in
      match result with
      | CURLE_OK =>
          let '(result, lines) := save_entries E n in
          (result, line :: lines)
      | _ => (result, [])
      end
  end.

(** The two comment lines that fputs writes first. *)
Definition save_header : list string :=
  [("# Your alt-svc cache. https://curl.se/docs/alt-svc.html"
    ++ String "010" EmptyString)%string;
   ("# This file was generated by libcurl! Edit at your own risk."
    ++ String "010" EmptyString)%string].

Definition CURLALTSVC_READONLYFILE : Z := 4%Z.

(** The result codes of a save. *)
Inductive save_code : Type :=
| SAVE_OK                      (* CURLE_OK *)
| SAVE_WRITE_ERROR             (* CURLE_WRITE_ERROR *)
| SAVE_FOPEN_ERROR             (* the code Curl_fopen returned *)
| SAVE_OUT_ERROR (r : CURLcode) (* the code altsvc_out returned *).

(** What a save did: its result, the file it opened, the lines it wrote to
    the stream, whether the rename onto the target happened and succeeded,
    and whether the temporary file was unlinked. *)
Record save_effects : Type := mk_save_effects {
  s_result : save_code;
  s_opened : option string;
  s_written : list string;
  s_renamed : bool;
  s_unlinked : bool
}.

(** What the file system answers to a save: whether Curl_fopen succeeds,
    whether it hands out a temporary file, whether Curl_rename succeeds. *)
Record save_world : Type := mk_save_world {
  fopen_ok : bool;
  has_tempstore : bool;
  rename_ok : bool
}.

Definition save_untouched : save_effects :=
  mk_save_effects SAVE_OK None [] false false.

(** Curl_altsvc_save() writes the altsvc cache to a file.  [altsvc] is
    [None] when no cache is activated, [file] is [None] for a NULL name. *)
Definition Curl_altsvc_save (E : save_env) (W : save_world)
    (altsvc : option altsvcinfo) (file : option string) : save_effects :=
  match altsvc with
  | None => save_untouched (* no cache activated *)
  | Some a =>
      (* if not new name is given, use the one we stored from the load *)
      let file :=
        match file with
        | None => asi_filename a
        | Some f => Some f
        end in
      match file with
      | None => save_untouched
      | Some f =>
          if negb (Z.land (asi_flags a) CURLALTSVC_READONLYFILE =? 0)%Z
             || (String.length f =? 0)
          then
            (* marked as read-only, no file or zero length filename *)
            save_untouched
          else if negb (fopen_ok W) then
            mk_save_effects SAVE_FOPEN_ERROR None [] false false
          else
            let '(result, lines) := save_entries E (asi_list a) in
            let written := save_header ++ lines in
            match result with
            | CURLE_OK =>
                if has_tempstore W then
                  if rename_ok W
                  then mk_save_effects SAVE_OK (Some f) written true false
                  else mk_save_effects SAVE_WRITE_ERROR (Some f) written
                                       false true
                else mk_save_effects SAVE_OK (Some f) written false false
            | r =>
                mk_save_effects (SAVE_OUT_ERROR r) (Some f) written false
                                (has_tempstore W)
            end
      end
  end.

(** ** Construction and control *)

(** Curl_altsvc_init() creates a new altsvc cache; the two flags say
    whether the build defines USE_HTTP2 and USE_HTTP3. *)
Definition Curl_altsvc_init (use_http2 use_http3 : bool) : altsvcinfo :=
  mk_altsvcinfo []
    None
    (Z.lor (alpnid_bits ALPN_h1)
       (Z.lor (if use_http2 then alpnid_bits ALPN_h2 else 0)
              (if use_http3 then alpnid_bits ALPN_h3 else 0)))%Z.

(** Curl_altsvc_ctrl() passes on the external bitmask. *)
Definition Curl_altsvc_ctrl (a : altsvcinfo) (ctrl : Z)
    : CURLcode * altsvcinfo :=
  (CURLE_OK, mk_altsvcinfo (asi_list a) (asi_filename a) ctrl).

(** The source host as [altsvc_createid] stores it. *)
Definition stored_source (s : string) : string :=
  if bracketed s then memdup0 (advance s) (String.length s - 2)
  else if ends_with_dot s then memdup0 s (String.length s - 1)
  else s.

(** The alternatives of a header value that are stored. *)
Definition stored_alternatives (B : build) (value : string) (srchost : string)
    (srcport : Z) : list alternative :=
  filter valid_alternative (scanned_alternatives B value srchost srcport).


(** The destination port of a stored alternative: the source port, or a
    port from 1 to 65535 that the header value gave. *)
Definition port_from (srcport : Z) (d : Z) : Prop :=
  d = srcport \/ (1 <= d <= 65535)%Z.



(** A line that the loop of the load passes over: a comment. *)
Definition comment_line (line : string) : bool :=
  Ascii.eqb
    (peek (skip_while (fun c => negb (is_nul c) && ISBLANK c) line)) "#".

(** What a loaded entry looks like: an entry of the cache whose source
    protocol is a known id too. *)
Definition loaded_ok (e : altsvc) : Prop :=
  entry_ok e /\ alpnid_set (alpn (src e)) = true.

Module MoreSamples.

(** A clock for the samples: every time is 2019-12-31 10:00:05; "::1" is
    the one IPv6 address. *)
Definition sample_env : save_env :=
  mk_save_env true (fun _ => (CURLE_OK, mk_tm 119 11 31 10 0 5))
              (fun h => String.eqb h "::1").

Definition sample_cache : list altsvc :=
  [Samples.entry "example.com" ALPN_h3 "::1" 8443 0;
   Samples.entry "other.example" ALPN_h2 "alt.other.example" 443 0].

Definition all_good : save_world := mk_save_world true true true.

End MoreSamples.

(** * Theorems *)

Import Samples.

(** ** Strings *)

Lemma length_app (s t : string) :
  String.length (s ++ t) = String.length s + String.length t.
Proof. induction s as [|c s IH]; simpl; [reflexivity|rewrite IH; reflexivity]. Qed.

Lemma app_assoc_str (s t u : string) : ((s ++ t) ++ u)%string = (s ++ (t ++ u))%string.
Proof. induction s as [|c s IH]; simpl; [reflexivity|rewrite IH; reflexivity]. Qed.

Lemma length_substring0 (n : nat) (s : string) :
  String.length (substring 0 n s) = Nat.min n (String.length s).
Proof.
  revert n. induction s as [|c s IH]; intros [|n]; simpl; try reflexivity.
  rewrite IH. reflexivity.
Qed.

Lemma substring0_app (s t : string) : substring 0 (String.length s) (s ++ t) = s.
Proof.
  induction s as [|c s IH]; simpl.
  - destruct t; reflexivity.
  - rewrite IH. reflexivity.
Qed.

Lemma substring0_all (s : string) : substring 0 (String.length s) s = s.
Proof.
  induction s as [|c s IH]; simpl; [reflexivity|rewrite IH; reflexivity].
Qed.

Lemma char_at_app (s : string) (c : ascii) (t : string) :
  char_at (s ++ String c t) (String.length s) = c.
Proof.
  unfold char_at. induction s as [|d s IH]; simpl; [reflexivity|exact IH].
Qed.

Lemma nonempty_length (s : string) : 0 < String.length s -> s <> "".
Proof. destruct s; simpl; [lia|discriminate]. Qed.

Lemma ends_with_dot_split (s : string) :
  ends_with_dot s = true -> exists m, s = (m ++ ".")%string.
Proof.
  unfold ends_with_dot, char_at.
  induction s as [|c s IH]; simpl; [discriminate|].
  destruct s as [|d s].
  - simpl. intros H. apply Ascii.eqb_eq in H. subst c. exists "". reflexivity.
  - intros H. simpl in IH. rewrite Nat.sub_0_r in IH.
    destruct (IH H) as [m Hm]. exists (String c m). simpl. rewrite <- Hm.
    reflexivity.
Qed.


Lemma memdup0_all (s : string) : memdup0 s (String.length s) = s.
Proof. apply substring0_all. Qed.


Lemma strip_dot (m : string) :
  memdup0 (m ++ ".") (String.length (m ++ ".") - 1) = m.
Proof.
  rewrite length_app. cbn [String.length].
  replace (String.length m + 1 - 1) with (String.length m) by lia.
  apply substring0_app.
Qed.

(** ** Entry creation *)

Lemma memdup0_nonempty (s : string) (n : nat) :
  0 < n -> 0 < String.length s -> memdup0 s n <> "".
Proof.
  intros Hn Hs. apply nonempty_length. unfold memdup0.
  rewrite length_substring0. lia.
Qed.

Lemma length_advance (s : string) :
  String.length (advance s) = String.length s - 1.
Proof. destruct s; simpl; lia. Qed.

(** Whatever is created keeps the invariant of the data model. *)
Lemma altsvc_createid_nonempty (srchost dsthost : string) (sid did : alpnid)
    (sp dp : Z) (e : altsvc) :
  altsvc_createid srchost dsthost sid did sp dp = Some e -> hosts_nonempty e.
Proof.
  unfold altsvc_createid, hosts_nonempty.
  destruct (String.length srchost =? 0) eqn:Hh0; [discriminate|].
  destruct (String.length dsthost =? 0) eqn:Hd0; [discriminate|].
  apply Nat.eqb_neq in Hh0, Hd0. cbn [orb].
  assert (Hdst : forall d,
    d = (if (2 <? String.length dsthost) && Ascii.eqb (char_at dsthost 0) "["
         then (advance dsthost, String.length dsthost - 2)
         else (dsthost, String.length dsthost)) ->
    memdup0 (fst d) (snd d) <> "").
  { intros d ->. destruct (2 <? String.length dsthost) eqn:Hlen; cbn [andb].
    - apply Nat.ltb_lt in Hlen.
      destruct (Ascii.eqb (char_at dsthost 0) "["); cbn [fst snd];
        apply memdup0_nonempty; rewrite ?length_advance; lia.
    - cbn [fst snd]. apply memdup0_nonempty; lia. }
  specialize (Hdst _ eq_refl).
  destruct (if (2 <? String.length dsthost) && Ascii.eqb (char_at dsthost 0) "["
            then (advance dsthost, String.length dsthost - 2)
            else (dsthost, String.length dsthost)) as [dsthost' dlen'].
  cbn [fst snd] in Hdst.
  destruct (2 <? String.length srchost) eqn:Hlen; cbn [andb].
  - apply Nat.ltb_lt in Hlen.
    destruct (Ascii.eqb (char_at srchost 0) "[").
    + intros [= <-]. cbn [src dst host]. split; [|exact Hdst].
      apply memdup0_nonempty; rewrite ?length_advance; lia.
    + destruct (Ascii.eqb (char_at srchost (String.length srchost - 1)) ".").
      * destruct (String.length srchost - 1 =? 0) eqn:H1; [discriminate|].
        apply Nat.eqb_neq in H1.
        intros [= <-]. cbn [src dst host]. split; [|exact Hdst].
        apply memdup0_nonempty; lia.
      * intros [= <-]. cbn [src dst host]. split; [|exact Hdst].
        apply memdup0_nonempty; lia.
  - destruct (Ascii.eqb (char_at srchost (String.length srchost - 1)) ".").
    + destruct (String.length srchost - 1 =? 0) eqn:H1; [discriminate|].
      apply Nat.eqb_neq in H1.
      intros [= <-]. cbn [src dst host]. split; [|exact Hdst].
      apply memdup0_nonempty; lia.
    + intros [= <-]. cbn [src dst host]. split; [|exact Hdst].
      apply memdup0_nonempty; lia.
Qed.




(** ** Flush *)

Lemma flush_condition (id : alpnid) (h : string) (p : Z) (e : altsvc) :
  alpnid_eqb id (alpn (src e)) && (p =? port (src e))%Z
  && hostcompare h (host (src e)) = origin_matches id h p (src e).
Proof. reflexivity. Qed.

Lemma altsvc_flush_filter (asi : list altsvc) (id : alpnid) (h : string)
    (p : Z) :
  altsvc_flush asi id h p
  = filter (fun e => negb (origin_matches id h p (src e))) asi.
Proof.
  induction asi as [|e n IH]; cbn [altsvc_flush filter]; [reflexivity|].
  rewrite flush_condition, IH.
  destruct (origin_matches id h p (src e)); reflexivity.
Qed.

(** C9: a flush removes exactly the entries whose source matches the
    triple, whatever their expiry (the test reads the source only), and
    leaves the other entries unchanged and in their order. *)
Theorem altsvc_flush_by_origin (asi : list altsvc) (id : alpnid)
    (h : string) (p : Z) :
  altsvc_flush asi id h p
  = filter (fun e => negb (origin_matches id h p (src e))) asi
  /\ (forall e, In e (altsvc_flush asi id h p) <->
                In e asi /\ origin_matches id h p (src e) = false).
Proof.
  split; [apply altsvc_flush_filter|].
  intros e. rewrite altsvc_flush_filter, filter_In, negb_true_iff.
  reflexivity.
Qed.

Lemma altsvc_flush_Forall (P : altsvc -> Prop) (asi : list altsvc)
    (id : alpnid) (h : string) (p : Z) :
  Forall P asi -> Forall P (altsvc_flush asi id h p).
Proof.
  rewrite altsvc_flush_filter, !Forall_forall. intros H e He.
  apply filter_In in He. apply H, He.
Qed.

(** ** Lookup *)

Lemma alpnid_eqb_sym (a b : alpnid) : alpnid_eqb a b = alpnid_eqb b a.
Proof. destruct a, b; reflexivity. Qed.

Lemma lookup_condition (id : alpnid) (h : string) (p v : Z) (e : altsvc) :
  alpnid_eqb (alpn (src e)) id && hostcompare h (host (src e))
  && (port (src e) =? p)%Z
  && negb (Z.land v (alpnid_bits (alpn (dst e))) =? 0)%Z
  = wanted id h p v e.
Proof.
  unfold wanted, origin_matches, accepted.
  rewrite (alpnid_eqb_sym (alpn (src e)) id), (Z.eqb_sym (port (src e)) p).
  destruct (alpnid_eqb id (alpn (src e))), (p =? port (src e))%Z,
    (hostcompare h (host (src e))); reflexivity.
Qed.

Lemma lookup_step (e : altsvc) (n : list altsvc) (id : alpnid) (h : string)
    (p v now : Z) :
  Curl_altsvc_lookup (e :: n) id h p v now =
  if expired now e then Curl_altsvc_lookup n id h p v now
  else if wanted id h p v e then (Some e, e :: n)
  else (fst (Curl_altsvc_lookup n id h p v now),
        e :: snd (Curl_altsvc_lookup n id h p v now)).
Proof.
  simpl. rewrite lookup_condition. unfold expired.
  destruct (expires e <? now)%Z; [reflexivity|].
  destruct (wanted id h p v e); [reflexivity|].
  destruct (Curl_altsvc_lookup n id h p v now); reflexivity.
Qed.



Lemma filter_live_drop (now : Z) (e : altsvc) (l : list altsvc) :
  expired now e = true -> filter (live now) (e :: l) = filter (live now) l.
Proof. intros H. cbn [filter]. unfold live at 1. rewrite H. reflexivity. Qed.

Lemma filter_live_keep (now : Z) (e : altsvc) (l : list altsvc) :
  expired now e = false ->
  filter (live now) (e :: l) = e :: filter (live now) l.
Proof. intros H. cbn [filter]. unfold live at 1. rewrite H. reflexivity. Qed.

(** C5: a lookup scans in insertion order and drops every expired entry it
    passes.  When it returns an entry, that entry is not expired, its source
    matches the triple and its destination protocol is accepted, every entry
    before it was expired or unwanted, and the list keeps the live entries
    before it, the entry and everything after it.  When it finds none, every
    entry was expired or unwanted and the list keeps the live entries. *)
Theorem Curl_altsvc_lookup_first_live_match (asi : list altsvc) (id : alpnid)
    (h : string) (p v now : Z) :
  match Curl_altsvc_lookup asi id h p v now with
  | (Some e, asi') =>
      exists pre post,
        asi = pre ++ e :: post
        /\ (forall x, In x pre ->
                      expired now x = true \/ wanted id h p v x = false)
        /\ expired now e = false
        /\ wanted id h p v e = true
        /\ asi' = filter (live now) pre ++ e :: post
  | (None, asi') =>
      (forall x, In x asi -> expired now x = true \/ wanted id h p v x = false)
      /\ asi' = filter (live now) asi
  end.
Proof.
  induction asi as [|e n IH].
  - simpl. split; [intros x []|reflexivity].
  - rewrite lookup_step.
    destruct (expired now e) eqn:He.
    + destruct (Curl_altsvc_lookup n id h p v now) as [[r|] n'].
      * destruct IH as (pre & post & -> & Hpre & Hr & Hw & ->).
        exists (e :: pre), post. rewrite filter_live_drop by exact He.
        repeat split; try assumption.
        intros x [<-|Hx]; [left; assumption|apply Hpre, Hx].
      * destruct IH as (Hall & ->). rewrite filter_live_drop by exact He.
        split; [|reflexivity].
        intros x [<-|Hx]; [left; assumption|apply Hall, Hx].
    + destruct (wanted id h p v e) eqn:Hw.
      * exists [], n. repeat split; try assumption. intros x [].
      * destruct (Curl_altsvc_lookup n id h p v now) as [[r|] n'];
          cbn [fst snd].
        -- destruct IH as (pre & post & -> & Hpre & Hr & Hwr & ->).
           exists (e :: pre), post. rewrite filter_live_keep by exact He.
           repeat split; try assumption.
           intros x [<-|Hx]; [right; assumption|apply Hpre, Hx].
        -- destruct IH as (Hall & ->). rewrite filter_live_keep by exact He.
           split; [|reflexivity].
           intros x [<-|Hx]; [right; assumption|apply Hall, Hx].
Qed.

Lemma lookup_keeps_live (asi : list altsvc) (id : alpnid) (h : string)
    (p v now : Z) (e : altsvc) :
  In e asi -> expired now e = false ->
  In e (snd (Curl_altsvc_lookup asi id h p v now)).
Proof.
  induction asi as [|x n IH]; [intros []|].
  intros Hin He. rewrite lookup_step.
  destruct (expired now x) eqn:Hx.
  - destruct Hin as [->|Hin]; [congruence|apply IH; assumption].
  - destruct (wanted id h p v x); [exact Hin|].
    simpl. destruct Hin as [->|Hin]; [left; reflexivity|right; apply IH; assumption].
Qed.

Lemma lookup_skips (pre : list altsvc) (rest : list altsvc) (id : alpnid)
    (h : string) (p v now : Z) :
  (forall x, In x pre -> expired now x = true \/ wanted id h p v x = false) ->
  fst (Curl_altsvc_lookup (pre ++ rest) id h p v now)
  = fst (Curl_altsvc_lookup rest id h p v now).
Proof.
  induction pre as [|x n IH]; intros Hpre; [reflexivity|].
  simpl app. rewrite lookup_step.
  assert (Hn : fst (Curl_altsvc_lookup (n ++ rest) id h p v now)
               = fst (Curl_altsvc_lookup rest id h p v now))
    by (apply IH; intros y Hy; apply Hpre; right; exact Hy).
  destruct (expired now x) eqn:Hx; [exact Hn|].
  destruct (Hpre x (or_introl eq_refl)) as [H|H]; [congruence|].
  rewrite H. exact Hn.
Qed.

(** C10: an entry whose expiry equals the current time is not evicted by
    a lookup, and it is the entry returned when it is wanted and nothing
    live and wanted stands before it. *)
Theorem lookup_entry_expiring_now_is_live (pre post : list altsvc)
    (e : altsvc) (id : alpnid) (h : string) (p v now : Z) :
  expires e = now ->
  In e (snd (Curl_altsvc_lookup (pre ++ e :: post) id h p v now))
  /\ (wanted id h p v e = true ->
      (forall x, In x pre ->
                 expired now x = true \/ wanted id h p v x = false) ->
      fst (Curl_altsvc_lookup (pre ++ e :: post) id h p v now) = Some e).
Proof.
  intros Hnow.
  assert (He : expired now e = false)
    by (unfold expired; rewrite Hnow; apply Z.ltb_irrefl).
  split.
  - apply lookup_keeps_live; [|exact He].
    apply in_or_app. right. left. reflexivity.
  - intros Hw Hpre. rewrite lookup_skips by exact Hpre.
    rewrite lookup_step, He, Hw. reflexivity.
Qed.

Lemma lookup_entry_expiring_now_is_live_witness :
  expires (entry "example.com" ALPN_h2 "alt.example" 443 1000) = 1000%Z
  /\ fst (Curl_altsvc_lookup
            ([entry "example.com" ALPN_h3 "stale.example" 443 999]
             ++ entry "example.com" ALPN_h2 "alt.example" 443 1000 :: [])
            ALPN_h1 "example.com" 80 all_versions 1000)
     = Some (entry "example.com" ALPN_h2 "alt.example" 443 1000).
Proof.
  split; [reflexivity|].
  apply (lookup_entry_expiring_now_is_live
           [entry "example.com" ALPN_h3 "stale.example" 443 999] []
           (entry "example.com" ALPN_h2 "alt.example" 443 1000)
           ALPN_h1 "example.com" 80 all_versions 1000 eq_refl).
  - vm_compute; reflexivity.
  - intros x [<-|[]]. left. reflexivity.
Defined.

(** ** Host comparison *)

Lemma strncasecompare_prefix (s t : string) :
  strncasecompare (s ++ t) s (String.length s) = true.
Proof.
  induction s as [|a r IH]; [reflexivity|].
  cbn [append String.length strncasecompare peek advance].
  rewrite Ascii.eqb_refl. destruct (is_nul a || is_nul a); [reflexivity|exact IH].
Qed.

Lemma last_of_dotted (s : string) :
  char_at (s ++ ".") (String.length (s ++ ".") - 1) = "."%char.
Proof.
  rewrite length_app. cbn [String.length].
  replace (String.length s + 1 - 1) with (String.length s) by lia.
  apply char_at_app.
Qed.

Lemma hostcompare_query_dot (s : string) : hostcompare (s ++ ".") s = true.
Proof.
  unfold hostcompare. rewrite last_of_dotted, Ascii.eqb_refl, length_app.
  cbn [String.length].
  replace (String.length s + 1 =? 0) with false
    by (symmetry; apply Nat.eqb_neq; lia).
  cbn [negb andb].
  replace (String.length s + 1 - 1) with (String.length s) by lia.
  rewrite Nat.eqb_refl. cbn [negb]. apply strncasecompare_prefix.
Qed.

Lemma hostcompare_stored_dot (s : string) : hostcompare s (s ++ ".") = false.
Proof.
  unfold hostcompare. rewrite length_app. cbn [String.length].
  destruct (negb (String.length s =? 0) && _).
  - replace (String.length s - 1 =? String.length s + 1) with false
      by (symmetry; apply Nat.eqb_neq; lia). reflexivity.
  - replace (String.length s =? String.length s + 1) with false
      by (symmetry; apply Nat.eqb_neq; lia). reflexivity.
Qed.

Lemma hostcompare_query_two_dots (s : string) :
  hostcompare (s ++ "..") s = false.
Proof.
  unfold hostcompare.
  replace (s ++ "..")%string with ((s ++ ".") ++ ".")%string
    by (rewrite app_assoc_str; reflexivity).
  rewrite last_of_dotted, Ascii.eqb_refl, !length_app. cbn [String.length].
  replace (String.length s + 1 + 1 =? 0) with false
    by (symmetry; apply Nat.eqb_neq; lia).
  cbn [negb andb].
  replace (String.length s + 1 + 1 - 1 =? String.length s) with false
    by (symmetry; apply Nat.eqb_neq; lia).
  reflexivity.
Qed.

Lemma alpnid_eqb_refl (a : alpnid) : alpnid_eqb a a = true.
Proof. destruct a; reflexivity. Qed.

(** C3 (as amended): host matching ignores one trailing dot of the host of
    the query only.  A live, accepted entry stored for host [s] is found by
    a lookup for [s ++ "."]; an entry stored for [s ++ "."] is not found by
    a lookup for [s]; and two trailing dots on the query are not ignored. *)
Theorem lookup_ignores_dot_of_query_only (s : string) (id : alpnid)
    (p v now : Z) (d : althost) (t : Z) (pe : bool) (pr : Z) :
  (now <= t)%Z ->
  Z.land v (alpnid_bits (alpn d)) <> 0%Z ->
  let stored_plain := mk_altsvc (mk_althost s id p) d t pe pr in
  let stored_dotted := mk_altsvc (mk_althost (s ++ ".") id p) d t pe pr in
  fst (Curl_altsvc_lookup [stored_plain] id (s ++ ".") p v now)
  = Some stored_plain
  /\ fst (Curl_altsvc_lookup [stored_dotted] id s p v now) = None
  /\ fst (Curl_altsvc_lookup [stored_plain] id (s ++ "..") p v now) = None.
Proof.
  intros Ht Hv stored_plain stored_dotted.
  assert (Hacc : forall e, dst e = d -> accepted v e = true).
  { intros e He. unfold accepted. rewrite He.
    apply negb_true_iff, Z.eqb_neq, Hv. }
  assert (Hexp : forall e, expires e = t -> expired now e = false).
  { intros e He. unfold expired. rewrite He. apply Z.ltb_ge, Ht. }
  rewrite !lookup_step.
  rewrite (Hexp stored_plain eq_refl), (Hexp stored_dotted eq_refl).
  unfold wanted, origin_matches.
  rewrite (Hacc stored_plain eq_refl), (Hacc stored_dotted eq_refl).
  cbn [src host alpn port stored_plain stored_dotted].
  rewrite alpnid_eqb_refl, Z.eqb_refl, hostcompare_query_dot,
    hostcompare_stored_dot, hostcompare_query_two_dots.
  repeat split.
Qed.

Lemma lookup_ignores_dot_of_query_only_witness :
  (1000 <= 5000)%Z
  /\ Z.land all_versions (alpnid_bits ALPN_h2) <> 0%Z
  /\ fst (Curl_altsvc_lookup [entry "example.com" ALPN_h2 "alt.example" 443 5000]
            ALPN_h1 "example.com." 80 all_versions 1000)
     = Some (entry "example.com" ALPN_h2 "alt.example" 443 5000).
Proof.
  split; [lia|]. split; [discriminate|].
  apply (lookup_ignores_dot_of_query_only "example.com" ALPN_h1 80
           all_versions 1000 (mk_althost "alt.example" ALPN_h2 443) 5000
           false 0);
    [lia|discriminate].
Defined.

(** C3 as stated fails on both halves: the entry stored for "example.com."
    is not found for the query "example.com", and the entry stored for
    "example.com" is found for the query "example.com.". *)
Lemma stored_dot_does_not_match_plain_query :
  fst (Curl_altsvc_lookup [entry "example.com." ALPN_h2 "alt.example" 443 5000]
         ALPN_h1 "example.com" 80 all_versions 1000) = None
  /\ fst (Curl_altsvc_lookup [entry "example.com" ALPN_h2 "alt.example" 443 5000]
            ALPN_h1 "example.com." 80 all_versions 1000)
     = Some (entry "example.com" ALPN_h2 "alt.example" 443 5000).
Proof. split; vm_compute; reflexivity. Qed.

(** ** The scanners only move forward *)

Lemma skip_while_len (f : ascii -> bool) (p : string) :
  String.length (skip_while f p) <= String.length p.
Proof.
  induction p as [|c r IH]; simpl; [lia|].
  destruct (f c); simpl; lia.
Qed.

Lemma advance_len (p : string) : String.length (advance p) <= String.length p.
Proof. destruct p; simpl; lia. Qed.

Lemma advance_lt (p : string) (c : ascii) :
  Ascii.eqb (peek p) c = true -> c <> NUL ->
  String.length (advance p) < String.length p.
Proof.
  destruct p as [|d r]; cbn [peek advance String.length]; intros H Hc; [|lia].
  apply Ascii.eqb_eq in H. congruence.
Qed.

Lemma drop_len (n : nat) (p : string) :
  String.length (drop n p) <= String.length p.
Proof.
  revert p. induction n as [|n IH]; intros [|c r]; simpl; try lia.
  specialize (IH r). lia.
Qed.

Lemma digits_len (p : string) (acc : Z) :
  String.length (snd (digits p acc)) <= String.length p.
Proof.
  revert acc. induction p as [|c r IH]; intros acc; simpl; [lia|].
  destruct (ISDIGIT c); simpl; [|lia]. specialize (IH (acc * 10 + digit_val c)%Z). lia.
Qed.

Lemma strtoul_len (B : build) (p : string) :
  String.length (snd (strtoul B p)) <= String.length p.
Proof.
  unfold strtoul.
  pose proof (skip_while_len ISSPACE p) as H1.
  set (s := skip_while ISSPACE p) in *.
  pose proof (advance_len s) as H2.
  assert (H3 : forall neg s', String.length s' <= String.length p ->
    String.length (snd (if ISDIGIT (peek s')
       then let '(v, end_ptr) := digits s' 0%Z in
            if (ULONG_MAX B <? v)%Z then (ULONG_MAX B, end_ptr)
            else if (neg : bool) then ((- v) mod 2 ^ ulong_bits B, end_ptr)%Z
            else (v, end_ptr)
       else (0%Z, p))) <= String.length p).
  { intros neg s' Hs'. destruct (ISDIGIT (peek s')); [|simpl; lia].
    pose proof (digits_len s' 0%Z) as Hd.
    destruct (digits s' 0%Z) as [v e]. simpl in Hd.
    destruct (ULONG_MAX B <? v)%Z; [simpl; lia|].
    destruct neg; simpl; lia. }
  destruct (Ascii.eqb (peek s) "-"); [apply (H3 true (advance s)); lia|].
  destruct (Ascii.eqb (peek s) "+");
    [apply (H3 false (advance s))|apply (H3 false s)]; lia.
Qed.

Lemma getalnum_len (p buf : string) :
  String.length (snd (fst (getalnum p buf))) <= String.length p.
Proof.
  unfold getalnum.
  set (f := fun c => negb (is_nul c) && ISBLANK c).
  set (g := fun c => negb (is_nul c) && negb (ISBLANK c)
                     && negb (Ascii.eqb c ";") && negb (Ascii.eqb c "=")).
  pose proof (skip_while_len f p). pose proof (skip_while_len g (skip_while f p)).
  destruct ((ptr_diff (skip_while g (skip_while f p)) (skip_while f p) =? 0)
            || (String.length buf <=?
                ptr_diff (skip_while g (skip_while f p)) (skip_while f p)));
    simpl; lia.
Qed.

Lemma scan_host_len (srchost p : string) (v : bool) (h p' : string) :
  scan_host srchost p = Some (v, h, p') ->
  String.length p' <= String.length p.
Proof.
  unfold scan_host.
  destruct (negb (Ascii.eqb (peek p) ":")); [|intros [= _ _ <-]; lia].
  destruct (Ascii.eqb (peek p) "[").
  - destruct (negb (Ascii.eqb (char_at (advance p)
                (strspn (advance p) "0123456789abcdefABCDEF:.")) "]"));
      [discriminate|].
    pose proof (advance_len p).
    pose proof (drop_len (strspn (advance p) "0123456789abcdefABCDEF:." + 2 - 1)
                         (advance p)).
    destruct ((_ =? 0) || _); intros [= _ _ <-]; lia.
  - match goal with |- context [skip_while ?f p] =>
      pose proof (skip_while_len f p) end.
    destruct ((_ =? 0) || _); intros [= _ _ <-]; lia.
Qed.

Lemma scan_port_len (B : build) (p : string) (v : bool) (d : Z)
    (v' : bool) (d' : Z) (p' : string) :
  scan_port B p v d = (v', d', p') -> String.length p' <= String.length p.
Proof.
  unfold scan_port.
  destruct (Ascii.eqb (peek p) ":"); [|intros [= _ _ <-]; lia].
  pose proof (advance_len p).
  pose proof (strtoul_len B (advance p)).
  destruct (ISDIGIT (peek (advance p))).
  - destruct (strtoul B (advance p)) as [port e]. simpl in *.
    destruct (_ || _); intros [= _ _ <-]; lia.
  - destruct (_ || _); intros [= _ _ <-]; lia.
Qed.

Lemma parse_param_len (B : build) (p : string) (q : bool) (ma : Z)
    (pe : bool) :
  match parse_param B p q ma pe with
  | Param_done p' => String.length p' <= String.length p
  | Param_return => True
  | Param_next p' _ _ _ => String.length p' < String.length p
  end.
Proof.
  unfold parse_param.
  pose proof (skip_while_len ISBLANK p) as H1.
  set (p1 := skip_while ISBLANK p) in *.
  destruct (Ascii.eqb (peek p1) ";") eqn:Hsemi; cbn [negb]; [|exact H1].
  assert (H2 : String.length (advance p1) < String.length p1)
    by (apply (advance_lt _ _ Hsemi); discriminate).
  set (p2 := advance p1) in *.
  destruct (is_nul (peek p2) || ISNEWLINE (peek p2)); [lia|].
  pose proof (getalnum_len p2 (zeros 32)) as H3.
  destruct (getalnum p2 (zeros 32)) as [[result p3] option]. cbn [fst snd] in H3.
  set (f := fun c => negb (is_nul c) && ISBLANK c).
  pose proof (skip_while_len f p3) as H4.
  set (p4 := skip_while f p3) in *.
  destruct (negb (Ascii.eqb (peek p4) "=")); [exact I|].
  pose proof (advance_len p4) as H5.
  pose proof (skip_while_len f (advance p4)) as H6.
  set (p6 := skip_while f (advance p4)) in *.
  destruct (is_nul (peek p6)); [exact I|].
  pose proof (advance_len p6) as H7.
  assert (H8 : forall p7 q7, String.length p7 <= String.length p6 ->
    match
      match
        (if q7 : bool
         then
           let p := skip_while (fun c => negb (is_nul c)
                                         && negb (Ascii.eqb c DQUOTE)) p7 in
           if is_nul (peek p) then None else Some (advance p)
         else
           Some (skip_while
                   (fun c => negb (is_nul c) && negb (ISBLANK c)
                             && negb (Ascii.eqb c ";")
                             && negb (Ascii.eqb c ",")) p7))
      with
      | None => Param_return
      | Some p =>
          let '(num, end_ptr) := strtoul B p7 in
          if negb (ptr_eqb end_ptr p7) && (num <? ULONG_MAX B)%Z
          then
            if strcasecompare "ma"
                 match result with CURLE_OK => cstr option | _ => "" end
            then Param_next p q7 (to_time_t B num) pe
            else if strcasecompare "persist"
                      match result with CURLE_OK => cstr option | _ => "" end
                    && (num =? 1)%Z
                 then Param_next p q7 ma true
                 else Param_next p q7 ma pe
          else Param_next p q7 ma pe
      end
    with
    | Param_done p' => String.length p' <= String.length p
    | Param_return => True
    | Param_next p' _ _ _ => String.length p' < String.length p
    end).
  { intros p7 q7 Hp7.
    assert (Hfin : forall p8, String.length p8 <= String.length p7 ->
      match
        (let '(num, end_ptr) := strtoul B p7 in
         if negb (ptr_eqb end_ptr p7) && (num <? ULONG_MAX B)%Z
         then
           if strcasecompare "ma"
                match result with CURLE_OK => cstr option | _ => "" end
           then Param_next p8 q7 (to_time_t B num) pe
           else if strcasecompare "persist"
                     match result with CURLE_OK => cstr option | _ => "" end
                   && (num =? 1)%Z
                then Param_next p8 q7 ma true
                else Param_next p8 q7 ma pe
         else Param_next p8 q7 ma pe)
      with
      | Param_done p' => String.length p' <= String.length p
      | Param_return => True
      | Param_next p' _ _ _ => String.length p' < String.length p
      end).
    { intros p8 Hp8. destruct (strtoul B p7) as [num e].
      destruct (_ && _); [|lia].
      destruct (strcasecompare "ma" _); [lia|].
      destruct (_ && _); lia. }
    destruct q7.
    - match goal with |- context [skip_while ?g p7] =>
        pose proof (skip_while_len g p7) as Hs;
        set (p8 := skip_while g p7) in * end.
      cbv zeta. destruct (is_nul (peek p8)); [exact I|].
      apply (Hfin (advance p8)). pose proof (advance_len p8). lia.
    - exact (Hfin _ (skip_while_len _ p7)). }
  destruct (Ascii.eqb (peek p6) DQUOTE);
    [apply (H8 (advance p6) true)|apply (H8 p6 q)]; lia.
Qed.

Lemma parse_params_total (B : build) (fuel : nat) :
  forall (p : string) (q : bool) (ma : Z) (pe : bool),
  String.length p < fuel ->
  match parse_params B fuel p q ma pe with
  | P_fuel => False
  | P_done p' _ _ => String.length p' <= String.length p
  | P_return => True
  end.
Proof.
  induction fuel as [|fuel IH]; intros p q ma pe Hlen; [lia|].
  cbn [parse_params].
  pose proof (parse_param_len B p q ma pe) as Hstep.
  destruct (parse_param B p q ma pe) as [p'| |p' q' ma' pe']; try assumption.
  specialize (IH p' q' ma' pe' ltac:(lia)).
  destruct (parse_params B fuel p' q' ma' pe') as [|p0 m0 e0|];
    [exact I|lia|exact IH].
Qed.

Lemma scan_alternative_len (B : build) (srchost : string) (alpnlen : nat)
    (p alpnbuf : string) (dstport : Z) :
  match scan_alternative B srchost alpnlen p alpnbuf dstport with
  | Scan_fuel => False
  | Scan_exit => True
  | Scan_store _ p' => String.length p' < String.length p
  end.
Proof.
  unfold scan_alternative.
  destruct (Ascii.eqb (peek p) "=") eqn:Heq; [|exact I].
  assert (H1 : String.length (advance p) < String.length p)
    by (apply (advance_lt _ _ Heq); discriminate).
  set (p1 := advance p) in *.
  destruct (Ascii.eqb (peek p1) DQUOTE); [|exact I].
  pose proof (advance_len p1) as H2.
  pose proof (scan_host_len srchost (advance p1)) as H3.
  destruct (scan_host srchost (advance p1)) as [[[valid dsthost] p3]|];
    [|exact I].
  specialize (H3 _ _ _ eq_refl).
  pose proof (scan_port_len B p3 valid dstport) as H4.
  destruct (scan_port B p3 valid dstport) as [[valid' dstport'] p4].
  specialize (H4 _ _ _ eq_refl).
  destruct (negb (Ascii.eqb (peek p4) DQUOTE)); [exact I|].
  pose proof (advance_len p4) as H5.
  pose proof (parse_params_total B (S (String.length (advance p4)))
                (advance p4) false (24 * 3600)%Z false ltac:(lia)) as H6.
  destruct (parse_params B (S (String.length (advance p4))) (advance p4)
                         false (24 * 3600)%Z false); [exact I|lia|exact H6].
Qed.

Lemma next_alternative_len (p alpnbuf p' alpnbuf' : string) :
  next_alternative p alpnbuf = Some (p', alpnbuf') ->
  String.length p' <= String.length p.
Proof.
  unfold next_alternative.
  destruct (Ascii.eqb (peek p) ",").
  - pose proof (getalnum_len (advance p) alpnbuf) as H.
    pose proof (advance_len p).
    destruct (getalnum (advance p) alpnbuf) as [[result p1] buf1].
    cbn [fst snd] in H.
    destruct result; [|discriminate].
    destruct (_ && _); [|discriminate]. intros [= <- _]. lia.
  - destruct (_ && _); [|discriminate]. intros [= <- _]. lia.
Qed.

(** The loop ends within its fuel, and every exit is CURLE_OK. *)
Lemma parse_loop_total {St : Type} (store : alternative -> St -> St)
    (B : build) (srchost : string) (alpnlen : nat) (fuel : nat) :
  forall (p alpnbuf : string) (dstport : Z) (st : St),
  String.length p < fuel ->
  exists st', parse_loop store B srchost alpnlen fuel p alpnbuf dstport st
              = Some (CURLE_OK, st').
Proof.
  induction fuel as [|fuel IH]; intros p alpnbuf dstport st Hlen; [lia|].
  cbn [parse_loop].
  pose proof (scan_alternative_len B srchost alpnlen p alpnbuf dstport) as H.
  destruct (scan_alternative B srchost alpnlen p alpnbuf dstport) as [| |a p1].
  - eexists; reflexivity.
  - destruct H.
  - pose proof (next_alternative_len p1 alpnbuf) as Hn.
    destruct (next_alternative p1 alpnbuf) as [[p2 buf2]|].
    + specialize (Hn _ _ eq_refl). apply IH. lia.
    + eexists; reflexivity.
Qed.

(** Two stores that keep a relation between their states end related. *)
Lemma parse_loop_related {S1 S2 : Type} (R : S1 -> S2 -> Prop)
    (store1 : alternative -> S1 -> S1) (store2 : alternative -> S2 -> S2)
    (B : build) (srchost : string) (alpnlen : nat) :
  (forall a s1 s2, R s1 s2 -> R (store1 a s1) (store2 a s2)) ->
  forall (fuel : nat) (p alpnbuf : string) (dstport : Z) (s1 : S1) (s2 : S2)
         (r : CURLcode) (s1' : S1),
  R s1 s2 ->
  parse_loop store1 B srchost alpnlen fuel p alpnbuf dstport s1
  = Some (r, s1') ->
  exists s2', parse_loop store2 B srchost alpnlen fuel p alpnbuf dstport s2
              = Some (r, s2') /\ R s1' s2'.
Proof.
  intros Hstore.
  induction fuel as [|fuel IH]; intros p alpnbuf dstport s1 s2 r s1' HR;
    cbn [parse_loop]; [discriminate|].
  destruct (scan_alternative B srchost alpnlen p alpnbuf dstport) as [| |a p1].
  - intros [= <- <-]. eexists; split; [reflexivity|exact HR].
  - discriminate.
  - destruct (next_alternative p1 alpnbuf) as [[p2 buf2]|].
    + apply IH. apply Hstore, HR.
    + intros [= <- <-]. eexists; split; [reflexivity|apply Hstore, HR].
Qed.

(** ** The stores of one header value *)

Lemma store_alternative_skip (B : build) (id : alpnid) (h : string)
    (sp secs : Z) (a : alternative) (st : nat * list altsvc) :
  valid_alternative a = false ->
  store_alternative B id h sp secs a st = st.
Proof.
  unfold store_alternative, valid_alternative. destruct st as [n asi].
  intros ->. reflexivity.
Qed.

Lemma store_alternative_valid (B : build) (id : alpnid) (h : string)
    (sp secs : Z) (a : alternative) (n : nat) (asi : list altsvc) :
  valid_alternative a = true ->
  store_alternative B id h sp secs a (n, asi)
  = (S n, (if n =? 0 then altsvc_flush asi id h sp else asi)
          ++ new_entries B id h sp secs [a]).
Proof.
  unfold store_alternative, valid_alternative, new_entries, new_entry.
  intros ->. cbn [flat_map].
  destruct (altsvc_createid h (a_dsthost a) id (a_dstalpnid a) sp (a_dstport a));
    rewrite ?app_nil_r; reflexivity.
Qed.

Lemma new_entries_app (B : build) (id : alpnid) (h : string) (sp secs : Z)
    (l1 l2 : list alternative) :
  new_entries B id h sp secs (l1 ++ l2)
  = new_entries B id h sp secs l1 ++ new_entries B id h sp secs l2.
Proof. unfold new_entries. apply flat_map_app. Qed.

(** Once the counter is not zero, valid alternatives are appended. *)
Lemma stores_after_first (B : build) (id : alpnid) (h : string) (sp secs : Z)
    (alts : list alternative) :
  forall (n : nat) (asi : list altsvc),
  fold_left (fun st a => store_alternative B id h sp secs a st) alts
            (S n, asi)
  = (S n + List.length (filter valid_alternative alts),
     asi ++ new_entries B id h sp secs (filter valid_alternative alts)).
Proof.
  induction alts as [|a alts IH]; intros n asi; cbn [fold_left filter].
  - rewrite app_nil_r, Nat.add_0_r. reflexivity.
  - destruct (valid_alternative a) eqn:Ha.
    + rewrite store_alternative_valid by exact Ha. cbn [Nat.eqb].
      rewrite IH. cbn [List.length].
      change (a :: filter valid_alternative alts)
        with ([a] ++ filter valid_alternative alts).
      rewrite new_entries_app, app_assoc. f_equal. lia.
    + rewrite store_alternative_skip by exact Ha. apply IH.
Qed.

(** From a zero counter, the first valid alternative flushes. *)
Lemma stores_from_zero (B : build) (id : alpnid) (h : string) (sp secs : Z)
    (alts : list alternative) (asi : list altsvc) :
  snd (fold_left (fun st a => store_alternative B id h sp secs a st) alts
                 (0, asi))
  = match filter valid_alternative alts with
    | [] => asi
    | good => altsvc_flush asi id h sp ++ new_entries B id h sp secs good
    end.
Proof.
  induction alts as [|a alts IH]; cbn [fold_left filter]; [reflexivity|].
  destruct (valid_alternative a) eqn:Ha.
  - rewrite store_alternative_valid by exact Ha. cbn [Nat.eqb].
    rewrite stores_after_first. cbn [snd].
    change (a :: filter valid_alternative alts)
      with ([a] ++ filter valid_alternative alts).
    rewrite new_entries_app, app_assoc. reflexivity.
  - rewrite store_alternative_skip by exact Ha. exact IH.
Qed.

(** The loop of the parse is the fold of the store over the alternatives
    the scan reaches it with. *)
Lemma parse_loop_stores (B : build) (id : alpnid) (h : string) (sp secs : Z)
    (alpnlen : nat) (p alpnbuf : string) (asi : list altsvc) :
  exists alts,
    parse_loop (fun a l => l ++ [a]) B h alpnlen (S (String.length p))
               p alpnbuf sp [] = Some (CURLE_OK, alts)
    /\ parse_loop (store_alternative B id h sp secs) B h alpnlen
                  (S (String.length p)) p alpnbuf sp (0, asi)
       = Some (CURLE_OK,
               fold_left (fun st a => store_alternative B id h sp secs a st)
                         alts (0, asi)).
Proof.
  destruct (parse_loop_total (fun a (l : list alternative) => l ++ [a]) B h
              alpnlen (S (String.length p)) p alpnbuf sp [] ltac:(lia))
    as [alts Halts].
  exists alts. split; [exact Halts|].
  destruct (parse_loop_related
              (fun l st => st = fold_left
                 (fun st a => store_alternative B id h sp secs a st) l (0, asi))
              (fun a l => l ++ [a]) (store_alternative B id h sp secs)
              B h alpnlen) with (fuel := S (String.length p)) (p := p)
              (alpnbuf := alpnbuf) (dstport := sp) (s1 := @nil alternative)
              (s2 := (0, asi)) (r := CURLE_OK) (s1' := alts)
    as [st' [Hst' ->]].
  - intros a l st ->. rewrite fold_left_app. reflexivity.
  - reflexivity.
  - exact Halts.
  - exact Hst'.
Qed.



(** C2: the parse of any header value for any source triple ends and
    returns CURLE_OK. *)
Theorem parse_never_fails (B : build) (asi : list altsvc) (value : string)
    (id : alpnid) (h : string) (sp secs : Z) :
  exists asi',
    Curl_altsvc_parse B asi value id h sp secs = Some (CURLE_OK, asi').
Proof.
  unfold Curl_altsvc_parse.
  destruct (getalnum value (zeros MAX_ALTSVC_ALPNLEN)) as [[result p] alpnbuf].
  destruct result; [|eexists; reflexivity].
  destruct (strcasecompare (cstr alpnbuf) "clear"); [eexists; reflexivity|].
  destruct (parse_loop_total (store_alternative B id h sp secs) B h
              (String.length (cstr alpnbuf)) (S (String.length p)) p alpnbuf
              sp (0, asi) ltac:(lia)) as [[n asi'] ->].
  eexists; reflexivity.
Qed.

(** ** The invariant of the cache under a parse *)

Lemma new_entries_nonempty (B : build) (id : alpnid) (h : string)
    (sp secs : Z) (l : list alternative) :
  Forall hosts_nonempty (new_entries B id h sp secs l).
Proof.
  unfold new_entries. apply Forall_flat_map, Forall_forall. intros a _.
  unfold new_entry.
  destruct (altsvc_createid h (a_dsthost a) id (a_dstalpnid a) sp (a_dstport a))
    as [e|] eqn:He; [|constructor].
  constructor; [|constructor].
  exact (altsvc_createid_nonempty _ _ _ _ _ _ _ He).
Qed.

(** A parse keeps the hosts of every entry of the list non-empty. *)
Lemma parse_keeps_hosts_nonempty (B : build) (asi asi' : list altsvc)
    (value : string) (id : alpnid) (h : string) (sp secs : Z) (r : CURLcode) :
  Forall hosts_nonempty asi ->
  Curl_altsvc_parse B asi value id h sp secs = Some (r, asi') ->
  Forall hosts_nonempty asi'.
Proof.
  intros Hasi. unfold Curl_altsvc_parse.
  destruct (getalnum value (zeros MAX_ALTSVC_ALPNLEN)) as [[result p] alpnbuf].
  destruct result; [|intros [= _ <-]; exact Hasi].
  destruct (strcasecompare (cstr alpnbuf) "clear").
  - intros [= _ <-]. apply altsvc_flush_Forall, Hasi.
  - destruct (parse_loop_stores B id h sp secs (String.length (cstr alpnbuf))
                                p alpnbuf asi) as [alts [_ ->]].
    pose proof (stores_from_zero B id h sp secs alts asi) as Hst.
    destruct (fold_left _ alts (0, asi)) as [n l]. cbn [snd] in Hst.
    intros [= _ <-]. rewrite Hst.
    destruct (filter valid_alternative alts); [exact Hasi|].
    apply Forall_app. split; [apply altsvc_flush_Forall, Hasi|].
    apply new_entries_nonempty.
Qed.

(** ** The parse on sample header values *)

(** The keyword alone flushes the origin and adds nothing. *)
Example parse_clear :
  Curl_altsvc_parse lp64 old_cache "clear" ALPN_h1 "example.com" 80 1000
  = Some (CURLE_OK,
          [entry "other.example" ALPN_h2 "alt.other.example" 443 5000]).
Proof. vm_compute. reflexivity. Qed.

(** One alternative with host and port: one entry that expires a day
    later and does not persist. *)
Example parse_one_alternative :
  Curl_altsvc_parse lp64 [] other_example_443 ALPN_h1 "example.com" 80 1000
  = Some (CURLE_OK,
          [entry "example.com" ALPN_h2 "other.example" 443 (1000 + 86400)]).
Proof. vm_compute. reflexivity. Qed.

(** An alternative without a colon after its host leaves [dstport] as the
    round before left it. *)
Lemma scan_port_absent (B : build) (p : string) (valid : bool) (dstport : Z) :
  Ascii.eqb (peek p) ":" = false ->
  scan_port B p valid dstport = (valid, dstport, p).
Proof. unfold scan_port. intros ->. reflexivity. Qed.

(** The sum of the store saturates for every [maxage] it is given: the
    expiry is the smaller of [maxage + secs] and the largest time. *)
Lemma expiry_saturates (B : build) (maxage secs : Z) :
  expiry B maxage secs = Z.min (maxage + secs) (TIME_T_MAX B).
Proof.
  unfold expiry.
  destruct (TIME_T_MAX B - secs <? maxage)%Z eqn:H.
  - apply Z.ltb_lt in H. rewrite Z.min_r by lia. reflexivity.
  - apply Z.ltb_ge in H. rewrite Z.min_l by lia. reflexivity.
Qed.

(** The conversion of a max-age to time_t keeps the values that fit and
    turns the others negative. *)
Lemma to_time_t_lp64 (n : Z) :
  (0 <= n < 2 ^ 64)%Z ->
  to_time_t lp64 n = (if n <? 2 ^ 63 then n else n - 2 ^ 64)%Z.
Proof.
  intros Hn. unfold to_time_t. cbn [time_t_bits lp64].
  change (64 - 1)%Z with 63%Z.
  destruct (n <? 2 ^ 63)%Z eqn:H.
  - apply Z.ltb_lt in H. rewrite Z.mod_small by lia. lia.
  - apply Z.ltb_ge in H.
    replace (n + 2 ^ 63)%Z with ((n - 2 ^ 63) + 1 * 2 ^ 64)%Z by lia.
    rewrite Z.mod_add by lia. rewrite Z.mod_small by lia. lia.
Qed.

(** C4 (the code departs from it): in h3=":8443", h2="alt.example" the
    second alternative names no port, and it is stored with the port 8443 of
    the alternative before it, not with the source port 80. *)
Theorem parse_keeps_port_of_previous_alternative :
  exists e1 e2,
    Curl_altsvc_parse lp64 [] two_alternatives ALPN_h1 "example.com" 80 1000
    = Some (CURLE_OK, [e1; e2])
    /\ dst e1 = mk_althost "example.com" ALPN_h3 8443
    /\ dst e2 = mk_althost "alt.example" ALPN_h2 8443
    /\ port (src e2) = 80%Z.
Proof.
  eexists; eexists. split; [vm_compute; reflexivity|]. repeat split.
Qed.

(** With a 32-bit unsigned long the same value overflows strtoul, is
    ignored, and the entry expires after the default of 24 hours. *)
Example parse_max_age_ignored_on_overflow :
  Curl_altsvc_parse llp64 [] max_age_2_63 ALPN_h1 "example.com" 80 1000
  = Some (CURLE_OK,
          [entry "example.com" ALPN_h2 "example.com" 443 (1000 + 86400)]).
Proof. vm_compute. reflexivity. Qed.

(** C6 (the code departs from it): with a 64-bit unsigned long and a
    64-bit time_t, ma=9223372036854775808 is stored with an expiry of
    now - 2^63, a negative time, where the saturating sum is the largest
    time. *)
Theorem parse_max_age_wraps_negative :
  exists e,
    Curl_altsvc_parse lp64 [] max_age_2_63 ALPN_h1 "example.com" 80 1000
    = Some (CURLE_OK, [e])
    /\ expires e = (1000 - 2 ^ 63)%Z
    /\ (expires e < 0)%Z
    /\ (Z.min (1000 + 2 ^ 63) (TIME_T_MAX lp64) = 2 ^ 63 - 1)%Z.
Proof.
  eexists. split; [vm_compute; reflexivity|]. repeat split.
Qed.

(** ** Loading one line *)


Lemma ptr_diff_field (w r : string) :
  ptr_diff r (w ++ r) = String.length w.
Proof. unfold ptr_diff. rewrite length_app. lia. Qed.









Lemma dec_value_nonneg_acc (d : string) :
  forall acc, (0 <= acc)%Z -> (0 <= fst (digits d acc))%Z.
Proof.
  induction d as [|c d IH]; intros acc Hacc; cbn [digits]; [exact Hacc|].
  destruct (ISDIGIT c); [|exact Hacc].
  apply IH. unfold digit_val. lia.
Qed.


(** Creation from a word fails only on a source host that is a lone dot. *)
Lemma altsvc_createid_words (sh dh : string) (sid did : alpnid) (sp dp : Z) :
  sh <> "" -> dh <> "" ->
  (sh = "." -> altsvc_createid sh dh sid did sp dp = None)
  /\ (sh <> "." -> exists e,
        altsvc_createid sh dh sid did sp dp = Some e
        /\ alpn (src e) = sid /\ alpn (dst e) = did
        /\ port (src e) = to_ushort sp /\ port (dst e) = to_ushort dp).
Proof.
  intros Hsh Hdh. split; [intros ->; destruct dh; [congruence|reflexivity]|].
  intros Hdot. unfold altsvc_createid.
  destruct sh as [|c0 sh]; [congruence|]. destruct dh as [|d0 dh]; [congruence|].
  cbn [String.length Nat.eqb orb].
  destruct ((2 <? S (String.length sh)) && Ascii.eqb (char_at (String c0 sh) 0) "[").
  - destruct ((2 <? S (String.length dh)) && _); eexists; repeat split.
  - destruct (Ascii.eqb (char_at (String c0 sh) (S (String.length sh) - 1)) ".")
      eqn:Hd.
    + destruct (S (String.length sh) - 1 =? 0) eqn:Hone.
      * apply Nat.eqb_eq in Hone. destruct sh; [|simpl in Hone; lia].
        unfold char_at in Hd. cbn in Hd. apply Ascii.eqb_eq in Hd. subst c0.
        congruence.
      * destruct ((2 <? S (String.length dh)) && _); eexists; repeat split.
    + destruct ((2 <? S (String.length dh)) && _); eexists; repeat split.
Qed.

Lemma to_ushort_small (n : Z) : (0 <= n)%Z -> (n <= 65535)%Z -> to_ushort n = n.
Proof. intros H0 H1. unfold to_ushort. apply Z.mod_small. lia. Qed.







(** * Further properties *)

(** ** A host against itself *)

Lemma strncasecompare_same (s : string) (n : nat) :
  strncasecompare s s n = true.
Proof.
  revert s. induction n as [|n IH]; intros s; [reflexivity|].
  cbn [strncasecompare]. rewrite Ascii.eqb_refl.
  destruct (is_nul (peek s) || is_nul (peek s)); [reflexivity|apply IH].
Qed.

Lemma hostcompare_undotted (s : string) :
  ends_with_dot s = false -> hostcompare s s = true.
Proof.
  unfold hostcompare, ends_with_dot. intros ->. rewrite andb_false_r.
  rewrite Nat.eqb_refl. apply strncasecompare_same.
Qed.

Lemma hostcompare_dotted (s : string) :
  ends_with_dot s = true -> hostcompare s s = false.
Proof.
  unfold hostcompare. intros H.
  destruct (ends_with_dot_split s H) as [m ->].
  rewrite last_of_dotted, Ascii.eqb_refl, length_app. cbn [String.length].
  replace (String.length m + 1 =? 0) with false
    by (symmetry; apply Nat.eqb_neq; lia).
  cbn [negb andb].
  replace (String.length m + 1 - 1 =? String.length m + 1) with false
    by (symmetry; apply Nat.eqb_neq; lia).
  reflexivity.
Qed.

(** X1: a host matches itself exactly when it does not end in a dot: the
    dot of the first argument is dropped before the lengths are compared,
    so a stored host that still ends in a dot is not matched by a query for
    the same text. *)
Theorem hostcompare_self (s : string) :
  hostcompare s s = negb (ends_with_dot s).
Proof.
  destruct (ends_with_dot s) eqn:H.
  - apply hostcompare_dotted, H.
  - apply hostcompare_undotted, H.
Qed.

Lemma hostcompare_length (h c : string) :
  hostcompare h c = true ->
  String.length c = String.length h
  \/ (ends_with_dot h = true /\ String.length c + 1 = String.length h).
Proof.
  unfold hostcompare, ends_with_dot.
  destruct (String.length h =? 0) eqn:H0; cbn [negb andb].
  - destruct (String.length h =? String.length c) eqn:He; [|discriminate].
    apply Nat.eqb_eq in He. intros _. left. lia.
  - apply Nat.eqb_neq in H0.
    destruct (Ascii.eqb (char_at h (String.length h - 1)) ".").
    + destruct (String.length h - 1 =? String.length c) eqn:He; [|discriminate].
      apply Nat.eqb_eq in He. intros _. right. split; [reflexivity|lia].
    + destruct (String.length h =? String.length c) eqn:He; [|discriminate].
      apply Nat.eqb_eq in He. intros _. left. lia.
Qed.

(** ** Flush and lookup together *)

Lemma altsvc_flush_app (l1 l2 : list altsvc) (id : alpnid) (h : string)
    (p : Z) :
  altsvc_flush (l1 ++ l2) id h p
  = altsvc_flush l1 id h p ++ altsvc_flush l2 id h p.
Proof. rewrite !altsvc_flush_filter. apply filter_app. Qed.

Lemma altsvc_flush_twice (asi : list altsvc) (id : alpnid) (h : string)
    (p : Z) :
  altsvc_flush (altsvc_flush asi id h p) id h p = altsvc_flush asi id h p.
Proof.
  rewrite !altsvc_flush_filter.
  induction asi as [|e n IH]; [reflexivity|]. cbn [filter].
  destruct (origin_matches id h p (src e)) eqn:He; cbn [negb]; [exact IH|].
  cbn [filter]. rewrite He. cbn [negb]. rewrite IH. reflexivity.
Qed.

Lemma altsvc_flush_all (l : list altsvc) (id : alpnid) (h : string) (p : Z) :
  Forall (fun e => origin_matches id h p (src e) = true) l ->
  altsvc_flush l id h p = [].
Proof.
  rewrite altsvc_flush_filter. induction 1 as [|e l He _ IH]; [reflexivity|].
  cbn [filter]. rewrite He. exact IH.
Qed.

Lemma flushed_unwanted (asi : list altsvc) (id : alpnid) (h : string)
    (p v : Z) (x : altsvc) :
  In x (altsvc_flush asi id h p) -> wanted id h p v x = false.
Proof.
  rewrite altsvc_flush_filter, filter_In, negb_true_iff.
  intros [_ H]. unfold wanted. rewrite H. reflexivity.
Qed.

Lemma lookup_nil (id : alpnid) (h : string) (p v now : Z) :
  Curl_altsvc_lookup [] id h p v now = (None, []).
Proof. reflexivity. Qed.

(** X2: after a flush for an origin, a lookup for the same origin finds
    nothing, whatever the acceptance bitmask and the time; and a second
    flush changes nothing. *)
Theorem flush_then_lookup_finds_nothing (asi : list altsvc) (id : alpnid)
    (h : string) (p v now : Z) :
  fst (Curl_altsvc_lookup (altsvc_flush asi id h p) id h p v now) = None
  /\ altsvc_flush (altsvc_flush asi id h p) id h p = altsvc_flush asi id h p.
Proof.
  split; [|apply altsvc_flush_twice].
  rewrite <- (app_nil_r (altsvc_flush asi id h p)).
  rewrite lookup_skips; [reflexivity|].
  intros x Hx. right. exact (flushed_unwanted asi id h p v x Hx).
Qed.

(** X3: a lookup repeated at the same time with the same arguments returns
    the same entry and leaves the list as the first one left it: the first
    lookup evicted all it would evict. *)
Theorem lookup_twice (asi : list altsvc) (id : alpnid) (h : string)
    (p v now : Z) :
  Curl_altsvc_lookup (snd (Curl_altsvc_lookup asi id h p v now)) id h p v now
  = Curl_altsvc_lookup asi id h p v now.
Proof.
  induction asi as [|e n IH]; [reflexivity|].
  rewrite lookup_step.
  destruct (expired now e) eqn:He; [exact IH|].
  destruct (wanted id h p v e) eqn:Hw; cbn [snd].
  - rewrite lookup_step, He, Hw. reflexivity.
  - rewrite lookup_step, He, Hw, IH. reflexivity.
Qed.

(** A list whose entries all are of the origin: the lookup returns the first
    that is live and accepted. *)
Lemma lookup_own (l : list altsvc) (id : alpnid) (h : string) (p v now : Z) :
  Forall (fun e => origin_matches id h p (src e) = true) l ->
  fst (Curl_altsvc_lookup l id h p v now)
  = find (fun e => live now e && accepted v e) l.
Proof.
  induction 1 as [|e l He _ IH]; [reflexivity|].
  rewrite lookup_step. cbn [find]. unfold live, wanted. rewrite He.
  destruct (expired now e); cbn [negb andb]; [exact IH|].
  destruct (accepted v e); [reflexivity|exact IH].
Qed.

(** ** Entry creation, again *)

Lemma altsvc_createid_source (s d : string) (sid did : alpnid) (sp dp : Z)
    (e : altsvc) :
  altsvc_createid s d sid did sp dp = Some e ->
  src e = mk_althost (stored_source s) sid (to_ushort sp)
  /\ alpn (dst e) = did /\ port (dst e) = to_ushort dp
  /\ expires e = 0%Z /\ persist e = false /\ prio e = 0%Z.
Proof.
  unfold altsvc_createid, stored_source, bracketed, ends_with_dot.
  destruct ((String.length s =? 0) || (String.length d =? 0)); [discriminate|].
  destruct ((2 <? String.length d) && Ascii.eqb (char_at d 0) "[");
    destruct ((2 <? String.length s) && Ascii.eqb (char_at s 0) "[");
    try (intros [= <-]; repeat split);
    destruct (Ascii.eqb (char_at s (String.length s - 1)) ".");
    try (destruct (String.length s - 1 =? 0); [discriminate|]);
    intros [= <-]; cbn [src dst alpn port expires persist prio];
    rewrite ?memdup0_all; repeat split.
Qed.

(** X4: the creation of an entry fails exactly when the source host or the
    destination host is empty or the source host is a lone dot. *)
Theorem altsvc_createid_fails (s d : string) (sid did : alpnid) (sp dp : Z) :
  altsvc_createid s d sid did sp dp = None
  <-> s = "" \/ d = "" \/ s = ".".
Proof.
  split.
  - intros Hnone. destruct s as [|c0 s]; [left; reflexivity|].
    destruct d as [|d0 d]; [right; left; reflexivity|].
    right. right.
    destruct (string_dec (String c0 s) ".") as [Heq|Hne]; [exact Heq|].
    destruct (proj2 (altsvc_createid_words (String c0 s) (String d0 d) sid did
                       sp dp ltac:(discriminate) ltac:(discriminate)) Hne)
      as (e & He & _).
    congruence.
  - intros [-> | [-> | ->]].
    + reflexivity.
    + unfold altsvc_createid. rewrite orb_true_r. reflexivity.
    + destruct d; reflexivity.
Qed.

Lemma altsvc_createid_fails_witness :
  altsvc_createid "." "alt.example" ALPN_h1 ALPN_h2 80 443 = None.
Proof.
  apply (proj2 (altsvc_createid_fails "." "alt.example" ALPN_h1 ALPN_h2
                  80 443)).
  right. right. reflexivity.
Defined.

Lemma stored_source_matches (s : string) :
  hostcompare s (stored_source s) = negb (bracketed s).
Proof.
  unfold stored_source. destruct (bracketed s) eqn:Hb; cbn [negb].
  - destruct (hostcompare s _) eqn:Hc; [|reflexivity].
    apply hostcompare_length in Hc.
    unfold bracketed in Hb. apply andb_true_iff in Hb. destruct Hb as [Hl _].
    apply Nat.ltb_lt in Hl.
    unfold memdup0 in Hc. rewrite length_substring0, length_advance in Hc.
    lia.
  - destruct (ends_with_dot s) eqn:Hd.
    + destruct (ends_with_dot_split s Hd) as [m ->].
      rewrite strip_dot. apply hostcompare_query_dot.
    + apply hostcompare_undotted, Hd.
Qed.

(** X5: an entry created for a source triple is of that origin for flush
    and lookup, unless the source host was given in brackets: the host of a
    query is compared as it is, and the stored host has lost its brackets. *)
Theorem altsvc_createid_origin (s d : string) (sid did : alpnid) (sp dp : Z)
    (e : altsvc) :
  (0 <= sp < 65536)%Z ->
  altsvc_createid s d sid did sp dp = Some e ->
  origin_matches sid s sp (src e) = negb (bracketed s).
Proof.
  intros Hsp He. destruct (altsvc_createid_source _ _ _ _ _ _ _ He) as [Hsrc _]. rewrite Hsrc.
  unfold origin_matches. cbn [alpn port host].
  rewrite alpnid_eqb_refl, to_ushort_small by lia.
  rewrite Z.eqb_refl. cbn [andb]. apply stored_source_matches.
Qed.

Lemma altsvc_createid_origin_witness :
  (0 <= 80 < 65536)%Z
  /\ altsvc_createid "example.com." "alt.example" ALPN_h1 ALPN_h2 80 443
     = Some (entry "example.com" ALPN_h2 "alt.example" 443 0)
  /\ origin_matches ALPN_h1 "example.com." 80
       (src (entry "example.com" ALPN_h2 "alt.example" 443 0))
     = negb (bracketed "example.com.").
Proof.
  split; [lia|]. split; [reflexivity|].
  apply (altsvc_createid_origin "example.com." "alt.example" ALPN_h1 ALPN_h2
           80 443 (entry "example.com" ALPN_h2 "alt.example" 443 0));
    [lia|reflexivity].
Defined.

(** ** What a parse does to the list *)

Lemma parse_cases (B : build) (asi : list altsvc) (value : string)
    (id : alpnid) (h : string) (sp secs : Z) :
  Curl_altsvc_parse B asi value id h sp secs
  = Some (CURLE_OK,
          if clear_keyword value then altsvc_flush asi id h sp
          else match stored_alternatives B value h sp with
               | [] => asi
               | good =>
                   altsvc_flush asi id h sp
                   ++ new_entries B id h sp secs good
               end).
Proof.
  unfold clear_keyword, Curl_altsvc_parse, stored_alternatives,
    scanned_alternatives.
  destruct (getalnum value (zeros MAX_ALTSVC_ALPNLEN)) as [[result p] alpnbuf].
  destruct result; [|reflexivity].
  destruct (strcasecompare (cstr alpnbuf) "clear"); [reflexivity|].
  destruct (parse_loop_stores B id h sp secs (String.length (cstr alpnbuf))
                              p alpnbuf asi) as [alts [-> ->]].
  rewrite <- stores_from_zero.
  destruct (fold_left _ alts (0, asi)) as [n asi']. reflexivity.
Qed.

Lemma new_entries_origin (B : build) (id : alpnid) (h : string) (sp secs : Z)
    (l : list alternative) :
  (0 <= sp < 65536)%Z -> bracketed h = false ->
  Forall (fun e => origin_matches id h sp (src e) = true)
         (new_entries B id h sp secs l).
Proof.
  intros Hsp Hb. unfold new_entries. apply Forall_flat_map, Forall_forall.
  intros a _. unfold new_entry.
  destruct (altsvc_createid h (a_dsthost a) id (a_dstalpnid a) sp (a_dstport a))
    as [e|] eqn:He; [|constructor].
  constructor; [|constructor]. cbn [set_persist set_expires src].
  destruct (altsvc_createid_source _ _ _ _ _ _ _ He) as [Hsrc _]. rewrite Hsrc.
  unfold origin_matches. cbn [alpn port host].
  rewrite alpnid_eqb_refl, to_ushort_small, Z.eqb_refl, stored_source_matches,
    Hb by lia.
  reflexivity.
Qed.

(** X6: a parse removes no entry of another origin and keeps the order of
    what it keeps: the list it leaves is the old list, or the old list
    flushed for the origin with new entries after it. *)
Theorem parse_frame (B : build) (asi asi' : list altsvc) (value : string)
    (id : alpnid) (h : string) (sp secs : Z) (r : CURLcode) :
  Curl_altsvc_parse B asi value id h sp secs = Some (r, asi') ->
  (asi' = asi \/ exists news, asi' = altsvc_flush asi id h sp ++ news)
  /\ (forall e, In e asi -> origin_matches id h sp (src e) = false ->
                In e asi').
Proof.
  rewrite parse_cases. intros [= _ <-].
  assert (Hkeep : forall e news, In e asi ->
            origin_matches id h sp (src e) = false ->
            In e (altsvc_flush asi id h sp ++ news)).
  { intros e news Hin Hne. apply in_or_app. left.
    rewrite altsvc_flush_filter. apply filter_In. split; [exact Hin|].
    rewrite Hne. reflexivity. }
  destruct (clear_keyword value).
  - split.
    + right. exists []. rewrite app_nil_r. reflexivity.
    + intros e Hin Hne. rewrite <- (app_nil_r (altsvc_flush _ _ _ _)).
      apply Hkeep; assumption.
  - destruct (stored_alternatives B value h sp) as [|a good].
    + split; [left; reflexivity|]. intros e Hin _. exact Hin.
    + split; [right; eexists; reflexivity|]. intros e. apply Hkeep.
Qed.

Lemma parse_frame_witness :
  Curl_altsvc_parse lp64 old_cache unknown_first ALPN_h1 "example.com" 80 1000
  = Some (CURLE_OK,
          [entry "other.example" ALPN_h2 "alt.other.example" 443 5000;
           entry "example.com" ALPN_h3 "example.com" 8443 1060;
           entry "example.com" ALPN_h2 "alt.example" 443 87400])
  /\ In (entry "other.example" ALPN_h2 "alt.other.example" 443 5000)
        [entry "other.example" ALPN_h2 "alt.other.example" 443 5000;
         entry "example.com" ALPN_h3 "example.com" 8443 1060;
         entry "example.com" ALPN_h2 "alt.example" 443 87400].
Proof.
  assert (H : Curl_altsvc_parse lp64 old_cache unknown_first ALPN_h1
                "example.com" 80 1000
              = Some (CURLE_OK,
                      [entry "other.example" ALPN_h2 "alt.other.example" 443
                             5000;
                       entry "example.com" ALPN_h3 "example.com" 8443 1060;
                       entry "example.com" ALPN_h2 "alt.example" 443 87400]))
    by (vm_compute; reflexivity).
  split; [exact H|].
  apply (proj2 (parse_frame lp64 old_cache _ unknown_first ALPN_h1
                  "example.com" 80 1000 CURLE_OK H)).
  - right. left. reflexivity.
  - reflexivity.
Defined.

(** Flushing after a parse is flushing before it: what the parse added is
    of the origin. *)
Lemma parse_then_flush (B : build) (asi asi1 : list altsvc) (v1 : string)
    (id : alpnid) (h : string) (sp secs1 : Z) (r1 : CURLcode) :
  (0 <= sp < 65536)%Z -> bracketed h = false ->
  Curl_altsvc_parse B asi v1 id h sp secs1 = Some (r1, asi1) ->
  altsvc_flush asi1 id h sp = altsvc_flush asi id h sp.
Proof.
  intros Hsp Hb. rewrite parse_cases. intros [= _ <-].
  destruct (clear_keyword v1); [apply altsvc_flush_twice|].
  destruct (stored_alternatives B v1 h sp) as [|a good]; [reflexivity|].
  rewrite altsvc_flush_app, altsvc_flush_twice.
  change (match new_entry B id h sp secs1 a with
          | Some e => [e]
          | None => []
          end ++ new_entries B id h sp secs1 good)
    with (new_entries B id h sp secs1 (a :: good)).
  rewrite (altsvc_flush_all (new_entries _ _ _ _ _ _)), app_nil_r;
    [reflexivity|apply new_entries_origin; assumption].
Qed.

(** X7: the last advertisement of an origin wins.  When a header value is
    the clear keyword or stores an alternative, parsing it after any other
    header value of the same origin leaves the list that parsing it alone
    leaves: nothing of the earlier value stays. *)
Theorem parse_replaces_earlier (B : build) (asi asi1 : list altsvc)
    (v1 v2 : string) (id : alpnid) (h : string) (sp secs1 secs2 : Z)
    (r1 : CURLcode) :
  (0 <= sp < 65536)%Z -> bracketed h = false ->
  clear_keyword v2 = true \/ stored_alternatives B v2 h sp <> [] ->
  Curl_altsvc_parse B asi v1 id h sp secs1 = Some (r1, asi1) ->
  Curl_altsvc_parse B asi1 v2 id h sp secs2
  = Curl_altsvc_parse B asi v2 id h sp secs2.
Proof.
  intros Hsp Hb Hv2 H1.
  pose proof (parse_then_flush B asi asi1 v1 id h sp secs1 r1 Hsp Hb H1)
    as Hflush.
  rewrite !(parse_cases B _ v2).
  destruct (clear_keyword v2); [rewrite Hflush; reflexivity|].
  destruct (stored_alternatives B v2 h sp) as [|a good].
  - destruct Hv2 as [Hc|Hn]; [discriminate|congruence].
  - rewrite Hflush. reflexivity.
Qed.

Lemma parse_replaces_earlier_witness :
  ((0 <= 80 < 65536)%Z /\ bracketed "example.com" = false
   /\ stored_alternatives lp64 other_example_443 "example.com" 80 <> [])
  /\ Curl_altsvc_parse lp64
       [entry "other.example" ALPN_h2 "alt.other.example" 443 5000;
        entry "example.com" ALPN_h3 "example.com" 8443 1060;
        entry "example.com" ALPN_h2 "alt.example" 443 87400]
       other_example_443 ALPN_h1 "example.com" 80 2000
     = Curl_altsvc_parse lp64 old_cache other_example_443 ALPN_h1
                         "example.com" 80 2000.
Proof.
  assert (H3 : stored_alternatives lp64 other_example_443 "example.com" 80
               <> []) by (vm_compute; discriminate).
  split; [split; [lia|split; [reflexivity|exact H3]]|].
  apply (parse_replaces_earlier lp64 old_cache _ unknown_first
           other_example_443 ALPN_h1 "example.com" 80 1000 2000 CURLE_OK);
    [lia|reflexivity|right; exact H3|vm_compute; reflexivity].
Defined.

(** X8: a lookup for the origin right after a parse that stored something
    returns the first of the new entries that is live and whose protocol is
    accepted, and nothing when there is none: the entries the origin had
    before are gone. *)
Theorem parse_then_lookup (B : build) (asi asi' : list altsvc)
    (value : string) (id : alpnid) (h : string) (sp secs v now : Z)
    (r : CURLcode) :
  (0 <= sp < 65536)%Z -> bracketed h = false ->
  clear_keyword value = false ->
  stored_alternatives B value h sp <> [] ->
  Curl_altsvc_parse B asi value id h sp secs = Some (r, asi') ->
  fst (Curl_altsvc_lookup asi' id h sp v now)
  = find (fun e => live now e && accepted v e)
         (new_entries B id h sp secs (stored_alternatives B value h sp)).
Proof.
  intros Hsp Hb Hc Hgood. rewrite parse_cases, Hc. intros [= _ <-].
  destruct (stored_alternatives B value h sp) as [|a good] eqn:Hs;
    [congruence|].
  rewrite lookup_skips.
  - apply lookup_own, new_entries_origin; assumption.
  - intros x Hx. right. exact (flushed_unwanted asi id h sp v x Hx).
Qed.

Lemma parse_then_lookup_witness :
  ((0 <= 80 < 65536)%Z /\ bracketed "example.com" = false
   /\ clear_keyword unknown_first = false
   /\ stored_alternatives lp64 unknown_first "example.com" 80 <> [])
  /\ fst (Curl_altsvc_lookup
            [entry "other.example" ALPN_h2 "alt.other.example" 443 5000;
             entry "example.com" ALPN_h3 "example.com" 8443 1060;
             entry "example.com" ALPN_h2 "alt.example" 443 87400]
            ALPN_h1 "example.com" 80 (alpnid_bits ALPN_h2) 1000)
     = Some (entry "example.com" ALPN_h2 "alt.example" 443 87400).
Proof.
  assert (H4 : stored_alternatives lp64 unknown_first "example.com" 80 <> [])
    by (vm_compute; discriminate).
  split; [split; [lia|split; [reflexivity|split; [reflexivity|exact H4]]]|].
  rewrite (parse_then_lookup lp64 old_cache _ unknown_first ALPN_h1
             "example.com" 80 1000 (alpnid_bits ALPN_h2) 1000 CURLE_OK);
    [vm_compute; reflexivity|lia|reflexivity|reflexivity|exact H4
    |vm_compute; reflexivity].
Defined.

(** ** Bounds and invariants of a parse *)

Lemma parse_loop_count (B : build) (h : string) (alpnlen : nat) (fuel : nat) :
  forall (p alpnbuf : string) (dstport : Z) (l0 l : list alternative)
         (r : CURLcode),
  parse_loop (fun a l => l ++ [a]) B h alpnlen fuel p alpnbuf dstport l0
  = Some (r, l) ->
  List.length l <= List.length l0 + String.length p.
Proof.
  induction fuel as [|fuel IH]; intros p alpnbuf dstport l0 l r;
    cbn [parse_loop]; [discriminate|].
  pose proof (scan_alternative_len B h alpnlen p alpnbuf dstport) as Hs.
  destruct (scan_alternative B h alpnlen p alpnbuf dstport) as [| |a p1].
  - intros [= _ <-]. lia.
  - discriminate.
  - pose proof (next_alternative_len p1 alpnbuf) as Hn.
    destruct (next_alternative p1 alpnbuf) as [[p2 buf2]|].
    + specialize (Hn _ _ eq_refl). intros H. apply IH in H.
      rewrite List.length_app in H. cbn [List.length] in H. lia.
    + intros [= _ <-]. rewrite List.length_app. cbn [List.length]. lia.
Qed.

Lemma scanned_alternatives_count (B : build) (value h : string) (sp : Z) :
  List.length (scanned_alternatives B value h sp) <= String.length value.
Proof.
  unfold scanned_alternatives.
  pose proof (getalnum_len value (zeros MAX_ALTSVC_ALPNLEN)) as Hg.
  destruct (getalnum value (zeros MAX_ALTSVC_ALPNLEN)) as [[result p] alpnbuf].
  cbn [fst snd] in Hg.
  destruct result; [|cbn; lia].
  destruct (strcasecompare (cstr alpnbuf) "clear"); [cbn; lia|].
  destruct (parse_loop _ B h _ _ p alpnbuf sp []) as [[r l]|] eqn:Hl;
    [|cbn; lia].
  apply parse_loop_count in Hl. cbn [List.length] in Hl. lia.
Qed.

Lemma new_entries_count (B : build) (id : alpnid) (h : string) (sp secs : Z)
    (l : list alternative) :
  List.length (new_entries B id h sp secs l) <= List.length l.
Proof.
  induction l as [|a l IH]; [cbn; lia|].
  change (a :: l) with ([a] ++ l). rewrite new_entries_app, !List.length_app.
  cbn [new_entries flat_map].
  destruct (new_entry B id h sp secs a); cbn [List.length app]; lia.
Qed.

Lemma altsvc_flush_count (asi : list altsvc) (id : alpnid) (h : string)
    (p : Z) :
  List.length (altsvc_flush asi id h p) <= List.length asi.
Proof. rewrite altsvc_flush_filter. apply filter_length_le. Qed.

(** X9: a header value adds at most as many entries as it has bytes: the
    list after a parse is no longer than the list before plus the length of
    the value. *)
Theorem parse_adds_at_most_length (B : build) (asi asi' : list altsvc)
    (value : string) (id : alpnid) (h : string) (sp secs : Z) (r : CURLcode) :
  Curl_altsvc_parse B asi value id h sp secs = Some (r, asi') ->
  List.length asi' <= List.length asi + String.length value.
Proof.
  rewrite parse_cases. intros [= _ <-].
  pose proof (altsvc_flush_count asi id h sp) as Hf.
  destruct (clear_keyword value); [lia|].
  pose proof (scanned_alternatives_count B value h sp) as Hs.
  pose proof (filter_length_le valid_alternative
                (scanned_alternatives B value h sp)) as Hv.
  fold (stored_alternatives B value h sp) in Hv.
  pose proof (new_entries_count B id h sp secs
                (stored_alternatives B value h sp)) as Hn.
  destruct (stored_alternatives B value h sp) as [|a good] eqn:Hgood; [lia|].
  rewrite List.length_app.
  change (match new_entry B id h sp secs a with
          | Some e => [e]
          | None => []
          end ++ new_entries B id h sp secs good)
    with (new_entries B id h sp secs (a :: good)) in *.
  lia.
Qed.

Lemma parse_adds_at_most_length_witness :
  Curl_altsvc_parse lp64 [] two_alternatives ALPN_h1 "example.com" 80 1000
  = Some (CURLE_OK,
          [entry "example.com" ALPN_h3 "example.com" 8443 87400;
           entry "example.com" ALPN_h2 "alt.example" 8443 87400])
  /\ List.length [entry "example.com" ALPN_h3 "example.com" 8443 87400;
                  entry "example.com" ALPN_h2 "alt.example" 8443 87400]
     <= List.length (@nil altsvc) + String.length two_alternatives.
Proof.
  assert (H : Curl_altsvc_parse lp64 [] two_alternatives ALPN_h1
                "example.com" 80 1000
              = Some (CURLE_OK,
                      [entry "example.com" ALPN_h3 "example.com" 8443 87400;
                       entry "example.com" ALPN_h2 "alt.example" 8443 87400]))
    by (vm_compute; reflexivity).
  split; [exact H|].
  exact (parse_adds_at_most_length lp64 [] _ two_alternatives ALPN_h1
           "example.com" 80 1000 CURLE_OK H).
Defined.

Lemma to_ushort_range (n : Z) : (0 <= to_ushort n < 65536)%Z.
Proof. unfold to_ushort. apply Z.mod_pos_bound. lia. Qed.

Lemma new_entries_ok (B : build) (id : alpnid) (h : string) (sp secs : Z)
    (l : list alternative) :
  Forall (fun a => valid_alternative a = true) l ->
  Forall entry_ok (new_entries B id h sp secs l).
Proof.
  intros Hl. unfold new_entries. apply Forall_flat_map.
  apply (Forall_impl _ (P := fun a => valid_alternative a = true)); [|exact Hl].
  intros a Ha. unfold new_entry.
  destruct (altsvc_createid h (a_dsthost a) id (a_dstalpnid a) sp (a_dstport a))
    as [e|] eqn:He; [|constructor].
  constructor; [|constructor].
  pose proof (altsvc_createid_nonempty _ _ _ _ _ _ _ He) as Hne.
  destruct (altsvc_createid_source _ _ _ _ _ _ _ He)
    as (Hsrc & Hda & Hdp & _ & _ & Hprio).
  unfold entry_ok, hosts_nonempty in *.
  cbn [set_persist set_expires src dst prio].
  rewrite Hsrc, Hda, Hdp, Hprio in *. cbn [port].
  unfold valid_alternative in Ha. apply andb_true_iff in Ha.
  pose proof (to_ushort_range sp). pose proof (to_ushort_range (a_dstport a)).
  repeat split; try apply Hne; try apply Ha; try lia.
Qed.

Lemma filter_all {A : Type} (f : A -> bool) (l : list A) :
  Forall (fun a => f a = true) (filter f l).
Proof. apply Forall_forall. intros a Ha. apply filter_In in Ha. apply Ha. Qed.

(** X10: a parse keeps the invariant of the cache: when every entry had
    non-empty hosts, a destination protocol that is a known id, ports of 16
    bits and priority 0, every entry has them afterwards.  In particular no
    alternative with the invalid protocol id is ever stored. *)
Theorem parse_keeps_entries_ok (B : build) (asi asi' : list altsvc)
    (value : string) (id : alpnid) (h : string) (sp secs : Z) (r : CURLcode) :
  Forall entry_ok asi ->
  Curl_altsvc_parse B asi value id h sp secs = Some (r, asi') ->
  Forall entry_ok asi'.
Proof.
  intros Hasi. rewrite parse_cases. intros [= _ <-].
  destruct (clear_keyword value); [apply altsvc_flush_Forall, Hasi|].
  pose proof (new_entries_ok B id h sp secs _
                (filter_all valid_alternative
                   (scanned_alternatives B value h sp))) as Hn.
  fold (stored_alternatives B value h sp) in Hn.
  destruct (stored_alternatives B value h sp) as [|a good]; [exact Hasi|].
  apply Forall_app. split; [apply altsvc_flush_Forall, Hasi|exact Hn].
Qed.

Lemma parse_keeps_entries_ok_witness :
  (Forall entry_ok (@nil altsvc)
   /\ Curl_altsvc_parse lp64 [] two_alternatives ALPN_h1 "example.com" 80
                         1000
      = Some (CURLE_OK,
              [entry "example.com" ALPN_h3 "example.com" 8443 87400;
               entry "example.com" ALPN_h2 "alt.example" 8443 87400]))
  /\ Forall entry_ok
       [entry "example.com" ALPN_h3 "example.com" 8443 87400;
        entry "example.com" ALPN_h2 "alt.example" 8443 87400].
Proof.
  assert (H : Curl_altsvc_parse lp64 [] two_alternatives ALPN_h1
                "example.com" 80 1000
              = Some (CURLE_OK,
                      [entry "example.com" ALPN_h3 "example.com" 8443 87400;
                       entry "example.com" ALPN_h2 "alt.example" 8443 87400]))
    by (vm_compute; reflexivity).
  split; [split; [constructor|exact H]|].
  exact (parse_keeps_entries_ok lp64 [] _ two_alternatives ALPN_h1
           "example.com" 80 1000 CURLE_OK (Forall_nil _) H).
Defined.

Lemma new_entries_expiry (B : build) (id : alpnid) (h : string) (sp secs : Z)
    (l : list alternative) :
  Forall (fun e => (expires e <= TIME_T_MAX B)%Z)
         (new_entries B id h sp secs l).
Proof.
  unfold new_entries. apply Forall_flat_map, Forall_forall. intros a _.
  unfold new_entry.
  destruct (altsvc_createid h (a_dsthost a) id (a_dstalpnid a) sp (a_dstport a))
    as [e|]; [|constructor].
  constructor; [|constructor]. cbn [set_persist set_expires expires].
  rewrite expiry_saturates. apply Z.le_min_r.
Qed.

(** X11: a parse never stores an expiry beyond the largest time: when no
    entry of the list expired after TIME_T_MAX, none does afterwards,
    whatever the max-age and the clock are. *)
Theorem parse_expiry_at_most_max (B : build) (asi asi' : list altsvc)
    (value : string) (id : alpnid) (h : string) (sp secs : Z) (r : CURLcode) :
  Forall (fun e => (expires e <= TIME_T_MAX B)%Z) asi ->
  Curl_altsvc_parse B asi value id h sp secs = Some (r, asi') ->
  Forall (fun e => (expires e <= TIME_T_MAX B)%Z) asi'.
Proof.
  intros Hasi. rewrite parse_cases. intros [= _ <-].
  destruct (clear_keyword value); [apply altsvc_flush_Forall, Hasi|].
  pose proof (new_entries_expiry B id h sp secs
                (stored_alternatives B value h sp)) as Hn.
  destruct (stored_alternatives B value h sp) as [|a good]; [exact Hasi|].
  apply Forall_app. split; [apply altsvc_flush_Forall, Hasi|exact Hn].
Qed.

Lemma parse_expiry_at_most_max_witness :
  (Forall (fun e => (expires e <= TIME_T_MAX lp64)%Z) (@nil altsvc)
   /\ Curl_altsvc_parse lp64 [] max_age_2_63 ALPN_h1 "example.com" 80 1000
      = Some (CURLE_OK,
              [entry "example.com" ALPN_h2 "example.com" 443
                     (1000 - 2 ^ 63)]))
  /\ Forall (fun e => (expires e <= TIME_T_MAX lp64)%Z)
       [entry "example.com" ALPN_h2 "example.com" 443 (1000 - 2 ^ 63)].
Proof.
  assert (H : Curl_altsvc_parse lp64 [] max_age_2_63 ALPN_h1 "example.com"
                80 1000
              = Some (CURLE_OK,
                      [entry "example.com" ALPN_h2 "example.com" 443
                             (1000 - 2 ^ 63)]))
    by (vm_compute; reflexivity).
  split; [split; [constructor|exact H]|].
  exact (parse_expiry_at_most_max lp64 [] _ max_age_2_63 ALPN_h1
           "example.com" 80 1000 CURLE_OK (Forall_nil _) H).
Defined.

(** ** The scanners of the header parser *)

(** What [skip_while] passes and where it stops. *)
Lemma skip_while_split (f : ascii -> bool) (p : string) :
  exists pre,
    p = (pre ++ skip_while f p)%string
    /\ str_forall f pre = true
    /\ (skip_while f p = "" \/ f (peek (skip_while f p)) = false).
Proof.
  induction p as [|c r IH]; cbn [skip_while].
  - exists "". repeat split. left. reflexivity.
  - destruct (f c) eqn:Hc.
    + destruct IH as (pre & Hp & Hall & Hstop).
      exists (String c pre). cbn [append str_forall]. rewrite Hc, <- Hp.
      repeat split; assumption.
    + exists "". repeat split. right. exact Hc.
Qed.

Lemma length_drop (n : nat) (s : string) :
  String.length (drop n s) = String.length s - n.
Proof.
  revert s. induction n as [|n IH]; intros [|c r]; cbn [drop String.length];
    try lia.
  rewrite IH. reflexivity.
Qed.

Lemma length_memdup0 (s : string) (n : nat) :
  n <= String.length s -> String.length (memdup0 s n) = n.
Proof. intros H. unfold memdup0. rewrite length_substring0. lia. Qed.

Lemma cstr_token (tok rest : string) :
  str_forall (fun c => negb (token_end c)) tok = true ->
  cstr (tok ++ String NUL rest) = tok.
Proof.
  induction tok as [|c tok IH]; cbn [append cstr str_forall]; [reflexivity|].
  intros H. apply andb_true_iff in H. destruct H as [Hc Htok].
  unfold token_end in Hc. destruct (is_nul c); [discriminate|].
  rewrite IH by exact Htok. reflexivity.
Qed.


Lemma token_byte (c : ascii) :
  negb (is_nul c) && negb (ISBLANK c) && negb (Ascii.eqb c ";")
  && negb (Ascii.eqb c "=") = negb (token_end c).
Proof.
  unfold token_end.
  destruct (is_nul c), (ISBLANK c), (Ascii.eqb c ";"), (Ascii.eqb c "=");
    reflexivity.
Qed.

Lemma token_end_stop (p : string) :
  p = "" \/ negb (token_end (peek p)) = false -> token_end (peek p) = true.
Proof.
  intros [->|H]; [reflexivity|]. apply negb_false_iff in H. exact H.
Qed.

Lemma skip_while_ext (f g : ascii -> bool) (p : string) :
  (forall c, f c = g c) -> skip_while f p = skip_while g p.
Proof.
  intros H. induction p as [|c r IH]; cbn [skip_while]; [reflexivity|].
  rewrite H, IH. reflexivity.
Qed.

(** X12: [getalnum] never changes the length of the buffer it fills, and it
    stops at the end of the string or at a blank, a semicolon or an equals
    sign.  When it succeeds, the bytes it passed after the leading blanks
    are the token, the token has 1 byte at least and fewer bytes than the
    buffer, none of them a delimiter, and the buffer holds the token as a C
    string.  When it fails, the token was empty or did not fit, and the
    buffer is as it was. *)
Theorem getalnum_token (p buf : string) :
  let '(result, p', buf') := getalnum p buf in
  String.length buf' = String.length buf
  /\ token_end (peek p') = true
  /\ exists tok,
       skip_while (fun c => negb (is_nul c) && ISBLANK c) p
       = (tok ++ p')%string
       /\ str_forall (fun c => negb (token_end c)) tok = true
       /\ match result with
          | CURLE_OK =>
              1 <= String.length tok < String.length buf /\ cstr buf' = tok
          | _ =>
              (tok = "" \/ String.length buf <= String.length tok)
              /\ buf' = buf
          end.
Proof.
  unfold getalnum.
  set (p0 := skip_while (fun c => negb (is_nul c) && ISBLANK c) p).
  rewrite (skip_while_ext _ (fun c => negb (token_end c)) p0 token_byte).
  destruct (skip_while_split (fun c => negb (token_end c)) p0)
    as (tok & Hp0 & Htok & Hstop).
  set (p1 := skip_while (fun c => negb (token_end c)) p0) in *.
  assert (Hlen : ptr_diff p1 p0 = String.length tok).
  { pose proof (f_equal String.length Hp0) as Hl. rewrite length_app in Hl.
    unfold ptr_diff. lia. }
  rewrite Hlen.
  destruct ((String.length tok =? 0) || (String.length buf <=? String.length tok))
    eqn:Hbad.
  - split; [reflexivity|]. split; [apply token_end_stop, Hstop|].
    exists tok. repeat split; try assumption.
    apply orb_true_iff in Hbad. destruct Hbad as [H|H].
    + left. apply Nat.eqb_eq in H. destruct tok; [reflexivity|discriminate].
    + right. apply Nat.leb_le, H.
  - apply orb_false_iff in Hbad. destruct Hbad as [H0 H1].
    apply Nat.eqb_neq in H0. apply Nat.leb_gt in H1.
    assert (Hdup : memdup0 p0 (String.length tok) = tok)
      by (rewrite Hp0; apply substring0_app).
    unfold buf_store. rewrite Hdup.
    split.
    { rewrite length_app. cbn [String.length]. rewrite length_drop. lia. }
    split; [apply token_end_stop, Hstop|].
    exists tok. repeat split; try assumption; try lia.
    apply cstr_token, Htok.
Qed.

Lemma skip_while_app_stop (f : ascii -> bool) (w r : string) :
  str_forall f w = true -> r = "" \/ f (peek r) = false ->
  skip_while f (w ++ r) = r.
Proof.
  intros Hw Hr. induction w as [|c w IH]; cbn [append skip_while].
  - destruct r as [|c r]; [reflexivity|]. cbn [skip_while peek] in *.
    destruct Hr as [Hr|Hr]; [discriminate|]. rewrite Hr. reflexivity.
  - cbn [str_forall] in Hw. apply andb_true_iff in Hw. destruct Hw as [-> Hw].
    apply IH, Hw.
Qed.

Lemma blank_byte (c : ascii) : negb (is_nul c) && ISBLANK c = ISBLANK c.
Proof.
  destruct (is_nul c) eqn:H; [|reflexivity].
  apply Ascii.eqb_eq in H. subst c. reflexivity.
Qed.

(** [getalnum] on blanks, a token and what follows it. *)
Lemma getalnum_on (ws tok rest buf : string) :
  str_forall ISBLANK ws = true ->
  str_forall (fun c => negb (token_end c)) tok = true ->
  token_end (peek rest) = true ->
  tok <> "" \/ ISBLANK (peek rest) = false ->
  getalnum (ws ++ tok ++ rest) buf
  = if (String.length tok =? 0) || (String.length buf <=? String.length tok)
    then (CURLE_BAD_FUNCTION_ARGUMENT, rest, buf)
    else (CURLE_OK, rest, buf_store buf (tok ++ rest) (String.length tok)).
Proof.
  intros Hws Htok Hrest Hne. unfold getalnum.
  rewrite (skip_while_ext _ ISBLANK _ blank_byte).
  rewrite (skip_while_ext _ (fun c => negb (token_end c)) _ token_byte).
  rewrite (skip_while_app_stop ISBLANK ws (tok ++ rest) Hws).
  - rewrite (skip_while_app_stop _ tok rest Htok).
    + rewrite ptr_diff_field. reflexivity.
    + right. rewrite Hrest. reflexivity.
  - destruct tok as [|c tok]; cbn [append peek].
    + destruct Hne as [Hne|Hne]; [congruence|]. right. exact Hne.
    + right. cbn [str_forall] in Htok. apply andb_true_iff in Htok.
      destruct Htok as [Hc _]. unfold token_end in Hc.
      destruct (ISBLANK c); [|reflexivity].
      rewrite orb_true_r in Hc. discriminate.
Qed.

(** X13: a header value whose first token has 10 bytes or more, or that has
    no token before the end, a semicolon or an equals sign, is ignored: the
    parse returns CURLE_OK and leaves the list as it was. *)
Theorem parse_ignores_excessive_header (B : build) (asi : list altsvc)
    (ws tok rest : string) (id : alpnid) (h : string) (sp secs : Z) :
  str_forall ISBLANK ws = true ->
  str_forall (fun c => negb (token_end c)) tok = true ->
  token_end (peek rest) = true ->
  (tok = "" /\ ISBLANK (peek rest) = false)
  \/ MAX_ALTSVC_ALPNLEN <= String.length tok ->
  Curl_altsvc_parse B asi (ws ++ tok ++ rest) id h sp secs
  = Some (CURLE_OK, asi).
Proof.
  intros Hws Htok Hrest Hbad. unfold Curl_altsvc_parse.
  rewrite (getalnum_on ws tok rest _ Hws Htok Hrest).
  - replace ((String.length tok =? 0)
             || (String.length (zeros MAX_ALTSVC_ALPNLEN) <=? String.length tok))
      with true; [reflexivity|].
    symmetry. apply orb_true_iff.
    destruct Hbad as [[-> _]|Hlong]; [left; reflexivity|].
    right. apply Nat.leb_le. exact Hlong.
  - destruct Hbad as [[_ Hb]|Hlong]; [right; exact Hb|].
    left. intros ->. unfold MAX_ALTSVC_ALPNLEN in Hlong. cbn in Hlong. lia.
Qed.

Lemma parse_ignores_excessive_header_witness :
  (str_forall ISBLANK " " = true
   /\ str_forall (fun c => negb (token_end c)) "h2h2h2h2h2" = true
   /\ token_end (peek "=x") = true
   /\ MAX_ALTSVC_ALPNLEN <= String.length "h2h2h2h2h2")
  /\ Curl_altsvc_parse lp64 old_cache (" " ++ "h2h2h2h2h2" ++ "=x")
                       ALPN_h1 "example.com" 80 1000
     = Some (CURLE_OK, old_cache).
Proof.
  assert (Hlen : MAX_ALTSVC_ALPNLEN <= String.length "h2h2h2h2h2")
    by (unfold MAX_ALTSVC_ALPNLEN; cbn; lia).
  split; [repeat split; try reflexivity; exact Hlen|].
  apply (parse_ignores_excessive_header lp64 old_cache " " "h2h2h2h2h2" "=x");
    [reflexivity|reflexivity|reflexivity|right; exact Hlen].
Defined.

(** ** Host and port of an alternative *)

Lemma digits_nonneg (p : string) (acc : Z) :
  (0 <= acc)%Z -> (0 <= fst (digits p acc))%Z.
Proof. apply dec_value_nonneg_acc. Qed.

Lemma strtoul_of_digit (B : build) (p : string) :
  ISDIGIT (peek p) = true ->
  (fst (strtoul B p) = ULONG_MAX B \/ 0 <= fst (strtoul B p))%Z.
Proof.
  intros Hd. unfold strtoul.
  assert (Hs : skip_while ISSPACE p = p).
  { destruct p as [|c r]; [reflexivity|]. cbn [peek skip_while] in *.
    destruct (ISSPACE c) eqn:Hsp; [|reflexivity].
    unfold ISDIGIT, ISSPACE, in_range in *.
    apply andb_true_iff in Hd. destruct Hd as [H1 H2].
    apply Nat.leb_le in H1, H2.
    apply orb_true_iff in Hsp. destruct Hsp as [Hsp|Hsp].
    - apply Ascii.eqb_eq in Hsp. subst c. cbn in H1. lia.
    - apply andb_true_iff in Hsp. destruct Hsp as [_ H3].
      apply Nat.leb_le in H3. lia. }
  rewrite Hs.
  assert (Hm : Ascii.eqb (peek p) "-" = false /\ Ascii.eqb (peek p) "+" = false).
  { unfold ISDIGIT, in_range in Hd.
    apply andb_true_iff in Hd. destruct Hd as [H1 H2].
    apply Nat.leb_le in H1, H2.
    split; apply Ascii.eqb_neq; intros Heq; rewrite Heq in H1; cbn in H1; lia. }
  destruct Hm as [-> ->]. rewrite Hd.
  pose proof (digits_nonneg p 0 ltac:(lia)) as Hv.
  destruct (digits p 0%Z) as [v e]. cbn [fst] in Hv.
  destruct (ULONG_MAX B <? v)%Z; cbn [fst]; [left; reflexivity|right; exact Hv].
Qed.

Lemma ULONG_MAX_lower (B : build) : (-1 <= ULONG_MAX B)%Z.
Proof.
  unfold ULONG_MAX. pose proof (Z.pow_nonneg 2 (ulong_bits B) ltac:(lia)). lia.
Qed.

(** The test of the port number, for a number that strtoul read from a
    digit. *)
Lemma port_check (B : build) (p : string) (valid : bool) (dstport : Z)
    (port : Z) (end_ptr : string) (valid' : bool) (dstport' : Z)
    (p' : string) :
  (port = ULONG_MAX B \/ 0 <= port)%Z ->
  (if (port =? 0)%Z || (USHRT_MAX <? port)%Z || ptr_eqb end_ptr (advance p)
      || negb (Ascii.eqb (peek end_ptr) DQUOTE)
   then (false, dstport, advance p)
   else (valid, to_ushort port, end_ptr)) = (valid', dstport', p') ->
  (valid' = true ->
   valid = true /\ (1 <= dstport' <= 65535)%Z /\ peek p' = DQUOTE)
  /\ (dstport' = dstport \/ (1 <= dstport' <= 65535)%Z).
Proof.
  intros Hp.
  destruct (port =? 0)%Z eqn:H0; cbn [orb];
    [intros [= <- <- <-]; split; [discriminate|left; reflexivity]|].
  destruct (USHRT_MAX <? port)%Z eqn:H1; cbn [orb];
    [intros [= <- <- <-]; split; [discriminate|left; reflexivity]|].
  destruct (ptr_eqb end_ptr (advance p)); cbn [orb];
    [intros [= <- <- <-]; split; [discriminate|left; reflexivity]|].
  destruct (Ascii.eqb (peek end_ptr) DQUOTE) eqn:Hq; cbn [negb];
    [|intros [= <- <- <-]; split; [discriminate|left; reflexivity]].
  intros [= <- <- <-].
  apply Z.eqb_neq in H0. apply Z.ltb_ge in H1. unfold USHRT_MAX in H1.
  apply Ascii.eqb_eq in Hq.
  assert (Hrange : (1 <= to_ushort port <= 65535)%Z).
  { pose proof (ULONG_MAX_lower B).
    assert (Hc : (port = -1 \/ 1 <= port)%Z) by lia.
    destruct Hc as [->|Hc]; [cbv; split; discriminate|].
    rewrite to_ushort_small by lia. lia. }
  split; [intros ->; auto|right; exact Hrange].
Qed.

(** X14: a port that an alternative gives is taken only when it is a
    number from 1 to 65535 that ends at the closing quote.  After a colon,
    the port variable is left as it was or set to such a number, and the
    alternative stays valid only if it was valid, the port was taken and
    the scan stopped at a double quote; without a colon nothing changes. *)
Theorem scan_port_range (B : build) (p : string) (valid : bool) (dstport : Z)
    (valid' : bool) (dstport' : Z) (p' : string) :
  scan_port B p valid dstport = (valid', dstport', p') ->
  if Ascii.eqb (peek p) ":"
  then (valid' = true ->
        valid = true /\ (1 <= dstport' <= 65535)%Z /\ peek p' = DQUOTE)
       /\ (dstport' = dstport \/ (1 <= dstport' <= 65535)%Z)
  else valid' = valid /\ dstport' = dstport /\ p' = p.
Proof.
  unfold scan_port.
  destruct (Ascii.eqb (peek p) ":"); [|intros [= <- <- <-]; auto].
  destruct (ISDIGIT (peek (advance p))) eqn:Hd.
  - pose proof (strtoul_of_digit B (advance p) Hd) as Hs.
    destruct (strtoul B (advance p)) as [port end_ptr]. cbn [fst] in Hs.
    exact (port_check B p valid dstport port end_ptr valid' dstport' p' Hs).
  - apply (port_check B p valid dstport 0 (advance p) valid' dstport' p').
    right. lia.
Qed.

Lemma scan_port_range_witness :
  scan_port lp64 (":8443" ++ dq) true 80 = (true, 8443%Z, dq)
  /\ (1 <= 8443 <= 65535)%Z.
Proof.
  assert (H : scan_port lp64 (":8443" ++ dq) true 80 = (true, 8443%Z, dq))
    by (vm_compute; reflexivity).
  split; [exact H|].
  exact (proj1 (proj2 (proj1 (scan_port_range lp64 _ _ _ _ _ _ H) eq_refl))).
Defined.

Lemma strspn_split (s accept : string) :
  exists pre,
    s = (pre ++ drop (strspn s accept) s)%string
    /\ String.length pre = strspn s accept
    /\ str_forall (fun c => str_mem c accept) pre = true.
Proof.
  induction s as [|c r IH]; cbn [strspn].
  - exists "". repeat split.
  - destruct (str_mem c accept) eqn:Hc.
    + destruct IH as (pre & Hs & Hl & Hall).
      exists (String c pre). cbn [append drop String.length str_forall].
      rewrite Hc, <- Hs, Hl. repeat split. exact Hall.
    + exists "". repeat split.
Qed.

Lemma drop_app (pre rest : string) :
  drop (String.length pre) (pre ++ rest) = rest.
Proof. induction pre as [|c pre IH]; [destruct rest; reflexivity|exact IH]. Qed.

Lemma char_at_drop (n : nat) (s : string) :
  char_at s n = peek (drop n s).
Proof.
  unfold char_at. revert s. induction n as [|n IH]; intros [|c r];
    cbn [String.get drop peek]; try reflexivity.
  apply IH.
Qed.

(** X15: the host that an alternative gives and the scan accepts is a part
    of the header value of 1 to 2047 bytes: either letters, digits, dots and
    hyphens only, or hexadecimal digits, colons and dots between brackets;
    without a host (a colon comes first) the source host is taken. *)
Theorem scan_host_accepts (srchost p : string) (dsthost p' : string) :
  scan_host srchost p = Some (true, dsthost, p') ->
  if Ascii.eqb (peek p) ":"
  then dsthost = srchost /\ p' = p
  else p = (dsthost ++ p')%string
       /\ 1 <= String.length dsthost < MAX_ALTSVC_HOSTLEN
       /\ (str_forall host_byte dsthost = true
           \/ exists m, dsthost = ("[" ++ m ++ "]")%string
                        /\ str_forall ipv6_byte m = true).
Proof.
  unfold scan_host.
  destruct (Ascii.eqb (peek p) ":"); cbn [negb]; [intros [= <- <-]; auto|].
  destruct (Ascii.eqb (peek p) "[") eqn:Hbr.
  - destruct p as [|c r]; [discriminate|]. cbn [peek advance] in *.
    apply Ascii.eqb_eq in Hbr. subst c.
    destruct (strspn_split r "0123456789abcdefABCDEF:.") as (m & Hr & Hl & Hall).
    set (n := strspn r "0123456789abcdefABCDEF:.") in *.
    rewrite char_at_drop.
    destruct (Ascii.eqb (peek (drop n r)) "]") eqn:Hclose; cbn [negb];
      [|discriminate].
    destruct (drop n r) as [|c rest] eqn:Hdrop; [discriminate|].
    cbn [peek] in Hclose. apply Ascii.eqb_eq in Hclose. subst c.
    assert (Hwhole : String "[" r = (("[" ++ m ++ "]") ++ rest)%string).
    { rewrite Hr. cbn [append]. f_equal. rewrite app_assoc_str. reflexivity. }
    assert (Hlen : String.length ("[" ++ m ++ "]")%string = n + 2).
    { cbn [append String.length]. rewrite length_app, Hl. cbn. lia. }
    assert (Hp' : drop (n + 2 - 1) r = rest).
    { replace (n + 2 - 1) with (String.length (m ++ "]")%string)
        by (rewrite length_app, Hl; cbn; lia).
      rewrite Hr.
      replace (m ++ String "]" rest)%string with ((m ++ "]") ++ rest)%string
        by (rewrite app_assoc_str; reflexivity).
      apply (drop_app (m ++ "]") rest). }
    rewrite Hp'.
    assert (Hdup : memdup0 (String "[" r) (n + 2) = ("[" ++ m ++ "]")%string).
    { rewrite Hwhole, <- Hlen. apply substring0_app. }
    rewrite Hdup.
    destruct ((n + 2 =? 0) || (MAX_ALTSVC_HOSTLEN <=? n + 2)) eqn:Hbad;
      [discriminate|].
    intros [= <- <-]. apply orb_false_iff in Hbad. destruct Hbad as [_ Hmax].
    apply Nat.leb_gt in Hmax.
    split; [exact Hwhole|].
    split; [cbn [append String.length] in Hlen |- *; lia|].
    right. exists m. split; [reflexivity|exact Hall].
  - destruct (skip_while_split host_byte p) as (hst & Hp & Hall & _).
    change (fun c : ascii =>
              negb (is_nul c)
              && (ISALNUM c || Ascii.eqb c "." || Ascii.eqb c "-"))
      with host_byte.
    set (p1 := skip_while host_byte p) in *.
    assert (Hlen : ptr_diff p1 p = String.length hst).
    { pose proof (f_equal String.length Hp) as Hl. rewrite length_app in Hl.
      unfold ptr_diff. lia. }
    rewrite Hlen.
    destruct ((String.length hst =? 0)
              || (MAX_ALTSVC_HOSTLEN <=? String.length hst)) eqn:Hbad;
      [discriminate|].
    assert (Hdup : memdup0 p (String.length hst) = hst).
    { pose proof (substring0_app hst p1) as Hs. rewrite <- Hp in Hs. exact Hs. }
    rewrite Hdup. intros [= <- <-].
    apply orb_false_iff in Hbad. destruct Hbad as [Hz Hmax].
    apply Nat.eqb_neq in Hz. apply Nat.leb_gt in Hmax.
    split; [exact Hp|]. split; [lia|]. left. exact Hall.
Qed.

Lemma scan_host_accepts_witness :
  scan_host "example.com" ("[::1]:443" ++ dq)%string
  = Some (true, "[::1]", (":443" ++ dq)%string)
  /\ 1 <= String.length "[::1]" < MAX_ALTSVC_HOSTLEN.
Proof.
  assert (H : scan_host "example.com" ("[::1]:443" ++ dq)%string
              = Some (true, "[::1]", (":443" ++ dq)%string))
    by (vm_compute; reflexivity).
  split; [exact H|].
  exact (proj1 (proj2 (scan_host_accepts _ _ _ _ H))).
Defined.

(** ** The ports a parse stores *)

Lemma scan_port_port (B : build) (p : string) (valid : bool) (dstport : Z)
    (valid' : bool) (dstport' : Z) (p' : string) (sp : Z) :
  scan_port B p valid dstport = (valid', dstport', p') ->
  port_from sp dstport -> port_from sp dstport'.
Proof.
  unfold scan_port, port_from. intros H Hd.
  destruct (Ascii.eqb (peek p) ":"); [|injection H as _ <- _; exact Hd].
  assert (Hk : dstport' = dstport \/ (1 <= dstport' <= 65535)%Z).
  { destruct (ISDIGIT (peek (advance p))) eqn:Hdig.
    - pose proof (strtoul_of_digit B (advance p) Hdig) as Hs.
      destruct (strtoul B (advance p)) as [port end_ptr]. cbn [fst] in Hs.
      exact (proj2 (port_check B p valid dstport port end_ptr _ _ _ Hs H)).
    - refine (proj2 (port_check B p valid dstport 0 (advance p) _ _ _ _ H)).
      right. lia. }
  destruct Hk as [->|Hr]; [exact Hd|right; exact Hr].
Qed.

Lemma scan_alternative_port (B : build) (h : string) (alpnlen : nat)
    (p alpnbuf : string) (dstport : Z) (a : alternative) (p1 : string)
    (sp : Z) :
  scan_alternative B h alpnlen p alpnbuf dstport = Scan_store a p1 ->
  port_from sp dstport -> port_from sp (a_dstport a).
Proof.
  unfold scan_alternative. intros H Hd.
  destruct (Ascii.eqb (peek p) "="); [|discriminate].
  destruct (Ascii.eqb (peek (advance p)) DQUOTE); [|discriminate].
  destruct (scan_host h (advance (advance p))) as [[[valid dsthost] p3]|];
    [|discriminate].
  pose proof (scan_port_port B p3 valid dstport) as Hp.
  destruct (scan_port B p3 valid dstport) as [[valid' dstport'] p4].
  specialize (Hp _ _ _ sp eq_refl Hd).
  destruct (negb (Ascii.eqb (peek p4) DQUOTE)); [discriminate|].
  destruct (parse_params B _ (advance p4) false (24 * 3600)%Z false);
    try discriminate.
  injection H as <- _. exact Hp.
Qed.

Lemma parse_loop_ports (B : build) (h : string) (alpnlen : nat) (sp : Z)
    (fuel : nat) :
  forall (p alpnbuf : string) (dstport : Z) (l0 l : list alternative)
         (r : CURLcode),
  parse_loop (fun a l => l ++ [a]) B h alpnlen fuel p alpnbuf dstport l0
  = Some (r, l) ->
  port_from sp dstport ->
  Forall (fun a => port_from sp (a_dstport a)) l0 ->
  Forall (fun a => port_from sp (a_dstport a)) l.
Proof.
  induction fuel as [|fuel IH]; intros p alpnbuf dstport l0 l r;
    cbn [parse_loop]; [discriminate|].
  destruct (scan_alternative B h alpnlen p alpnbuf dstport) as [| |a p1] eqn:Hs.
  - intros [= _ <-] _ Hl0. exact Hl0.
  - discriminate.
  - intros H Hd Hl0.
    pose proof (scan_alternative_port _ _ _ _ _ _ _ _ sp Hs Hd) as Ha.
    assert (Hl1 : Forall (fun a => port_from sp (a_dstport a)) (l0 ++ [a]))
      by (apply Forall_app; split; [exact Hl0|constructor; [exact Ha|constructor]]).
    destruct (next_alternative p1 alpnbuf) as [[p2 buf2]|].
    + exact (IH _ _ _ _ _ _ H Ha Hl1).
    + injection H as _ <-. exact Hl1.
Qed.

Lemma scanned_alternatives_ports (B : build) (value h : string) (sp : Z) :
  Forall (fun a => port_from sp (a_dstport a))
         (scanned_alternatives B value h sp).
Proof.
  unfold scanned_alternatives.
  destruct (getalnum value (zeros MAX_ALTSVC_ALPNLEN)) as [[result p] alpnbuf].
  destruct result; [|constructor].
  destruct (strcasecompare (cstr alpnbuf) "clear"); [constructor|].
  destruct (parse_loop _ B h _ _ p alpnbuf sp []) as [[r l]|] eqn:Hl;
    [|constructor].
  apply (parse_loop_ports _ _ _ sp _ _ _ _ _ _ _ Hl); [left; reflexivity|].
  constructor.
Qed.

Lemma new_entries_ports (B : build) (id : alpnid) (h : string) (sp secs : Z)
    (l : list alternative) :
  Forall (fun a => port_from sp (a_dstport a)) l ->
  Forall (fun e => port_from (to_ushort sp) (port (dst e)))
         (new_entries B id h sp secs l).
Proof.
  intros Hl. unfold new_entries. apply Forall_flat_map.
  apply (Forall_impl _ (P := fun a => port_from sp (a_dstport a))); [|exact Hl].
  intros a Ha. unfold new_entry.
  destruct (altsvc_createid h (a_dsthost a) id (a_dstalpnid a) sp (a_dstport a))
    as [e|] eqn:He; [|constructor].
  constructor; [|constructor]. cbn [set_persist set_expires dst].
  destruct (altsvc_createid_source _ _ _ _ _ _ _ He) as (_ & _ & -> & _).
  destruct Ha as [->|Hr]; [left; reflexivity|].
  right. rewrite to_ushort_small by lia. exact Hr.
Qed.

(** X16: whatever the header value holds, the destination port of every
    entry that a parse adds is the source port (as 16 bits) or a number
    from 1 to 65535: a port 0 or one beyond 16 bits is never stored for an
    alternative. *)
Theorem parse_stores_ports_in_range (B : build) (asi asi' : list altsvc)
    (value : string) (id : alpnid) (h : string) (sp secs : Z) (r : CURLcode) :
  Curl_altsvc_parse B asi value id h sp secs = Some (r, asi') ->
  Forall (fun e => In e asi \/ port_from (to_ushort sp) (port (dst e))) asi'.
Proof.
  rewrite parse_cases. intros [= _ <-].
  assert (Hold : forall l, (forall e, In e l -> In e asi) ->
            Forall (fun e => In e asi
                             \/ port_from (to_ushort sp) (port (dst e))) l).
  { intros l Hl. apply Forall_forall. intros e He. left. apply Hl, He. }
  assert (Hflush : forall e, In e (altsvc_flush asi id h sp) -> In e asi).
  { intros e. rewrite altsvc_flush_filter, filter_In. intros [H _]. exact H. }
  destruct (clear_keyword value); [apply Hold, Hflush|].
  assert (Hgood : Forall (fun a => port_from sp (a_dstport a))
                         (stored_alternatives B value h sp)).
  { apply Forall_forall. intros a Ha. apply filter_In in Ha.
    pose proof (scanned_alternatives_ports B value h sp) as Hall.
    rewrite Forall_forall in Hall. apply Hall, Ha. }
  pose proof (new_entries_ports B id h sp secs _ Hgood) as Hn.
  destruct (stored_alternatives B value h sp) as [|a good];
    [apply Hold; auto|].
  apply Forall_app. split; [apply Hold, Hflush|].
  apply (Forall_impl _ (P := fun e => port_from (to_ushort sp) (port (dst e))));
    [|exact Hn].
  intros e He. right. exact He.
Qed.

Lemma parse_stores_ports_in_range_witness :
  Curl_altsvc_parse lp64 [] two_alternatives ALPN_h1 "example.com" 80 1000
  = Some (CURLE_OK,
          [entry "example.com" ALPN_h3 "example.com" 8443 87400;
           entry "example.com" ALPN_h2 "alt.example" 8443 87400])
  /\ Forall (fun e => In e [] \/ port_from (to_ushort 80) (port (dst e)))
       [entry "example.com" ALPN_h3 "example.com" 8443 87400;
        entry "example.com" ALPN_h2 "alt.example" 8443 87400].
Proof.
  assert (H : Curl_altsvc_parse lp64 [] two_alternatives ALPN_h1
                "example.com" 80 1000
              = Some (CURLE_OK,
                      [entry "example.com" ALPN_h3 "example.com" 8443 87400;
                       entry "example.com" ALPN_h2 "alt.example" 8443 87400]))
    by (vm_compute; reflexivity).
  split; [exact H|].
  exact (parse_stores_ports_in_range lp64 [] _ two_alternatives ALPN_h1
           "example.com" 80 1000 CURLE_OK H).
Defined.

(** ** Decimal output *)













(** ** Save and load *)











Import MoreSamples.



(** ** The load of a file *)

Lemma altsvc_add_entry (B : build) (asi : list altsvc) (line : string) :
  snd (altsvc_add B asi line) = asi
  \/ exists e, snd (altsvc_add B asi line) = asi ++ [e] /\ loaded_ok e.
Proof.
  unfold altsvc_add. destruct (altsvc_fields line) as [f|]; [|left; reflexivity].
  unfold altsvc_create.
  destruct (alpnid_set (Curl_alpn2alpnid B (f_srcalpn f)
                          (String.length (f_srcalpn f)))) eqn:Hs;
    [|left; reflexivity].
  destruct (alpnid_set (Curl_alpn2alpnid B (f_dstalpn f)
                          (String.length (f_dstalpn f)))) eqn:Hd;
    [|left; reflexivity].
  cbn [negb orb].
  destruct (altsvc_createid _ _ _ _ _ _) as [e|] eqn:He; [|left; reflexivity].
  right. eexists. split; [reflexivity|].
  pose proof (altsvc_createid_nonempty _ _ _ _ _ _ _ He) as Hne.
  destruct (altsvc_createid_source _ _ _ _ _ _ _ He)
    as (Hsrc & Hda & Hdp & _ & _ & _).
  unfold loaded_ok, entry_ok, hosts_nonempty in *.
  cbn [set_persist set_prio set_expires src dst prio].
  rewrite Hsrc, Hda, Hdp in *. cbn [alpn port].
  pose proof (to_ushort_range (f_srcport f)).
  pose proof (to_ushort_range (f_dstport f)).
  repeat split; try apply Hne; try assumption; try lia.
Qed.

Lemma load_line_entry (B : build) (asi : list altsvc) (line : string) :
  load_line B asi line = asi
  \/ exists e, load_line B asi line = asi ++ [e] /\ loaded_ok e.
Proof.
  unfold load_line.
  destruct (Ascii.eqb (peek (skip_while _ line)) "#"); [left; reflexivity|].
  apply altsvc_add_entry.
Qed.

Lemma load_lines_append (B : build) (lines : list string) :
  forall asi,
  exists news,
    fold_left (load_line B) lines asi = asi ++ news
    /\ List.length news <= List.length lines
    /\ Forall loaded_ok news.
Proof.
  induction lines as [|line lines IH]; intros asi; cbn [fold_left].
  - exists []. rewrite app_nil_r. repeat split; [cbn; lia|constructor].
  - destruct (load_line_entry B asi line) as [->|(e & -> & He)].
    + destruct (IH asi) as (news & -> & Hlen & Hok).
      exists news. repeat split; [cbn; lia|exact Hok].
    + destruct (IH (asi ++ [e])) as (news & -> & Hlen & Hok).
      exists (e :: news). rewrite <- app_assoc. repeat split.
      * cbn [List.length]. lia.
      * constructor; assumption.
Qed.

(** X18: a load never fails on the content of a file and only appends.  It
    returns CURLE_OK, remembers the file name, keeps the flags and the
    entries the cache had, in their order, and adds at most one entry per
    line, each with non-empty hosts, known protocol ids, ports of 16 bits
    and priority 0; when the file cannot be opened it adds none. *)
Theorem altsvc_load_appends (B : build) (a : altsvcinfo) (file : string)
    (fp : option (list string)) :
  exists news,
    Curl_altsvc_load B a file fp
    = (CURLE_OK,
       mk_altsvcinfo (asi_list a ++ news) (Some file) (asi_flags a))
    /\ List.length news <= match fp with
                           | Some lines => List.length lines
                           | None => 0
                           end
    /\ Forall loaded_ok news.
Proof.
  unfold Curl_altsvc_load, altsvc_load. destruct fp as [lines|].
  - destruct (load_lines_append B lines (asi_list a)) as (news & -> & Hl & Hok).
    exists news. repeat split; assumption.
  - exists []. rewrite app_nil_r. repeat split; [cbn; lia|constructor].
Qed.

(** X19: a line that is a comment (blanks, then a hash sign) or that the
    tokenizers refuse changes nothing wherever it stands in the file: the
    load of the file with the line is the load of the file without it. *)
Theorem altsvc_load_skips_line (B : build) (a : altsvcinfo) (file : string)
    (pre post : list string) (line : string) :
  comment_line line = true
  \/ altsvc_fields
       (skip_while (fun c => negb (is_nul c) && ISBLANK c) line) = None ->
  Curl_altsvc_load B a file (Some (pre ++ line :: post))
  = Curl_altsvc_load B a file (Some (pre ++ post)).
Proof.
  intros Hline. unfold Curl_altsvc_load, altsvc_load.
  rewrite !fold_left_app. cbn [fold_left].
  assert (Hskip : forall asi, load_line B asi line = asi).
  { intros asi. unfold load_line. unfold comment_line in Hline.
    destruct (Ascii.eqb (peek (skip_while _ line)) "#"); [reflexivity|].
    destruct Hline as [Hc|Hf]; [discriminate|].
    unfold altsvc_add. rewrite Hf. reflexivity. }
  rewrite Hskip. reflexivity.
Qed.

Lemma altsvc_load_skips_line_witness :
  comment_line "  # h1 example.com 80" = true
  /\ Curl_altsvc_load lp64 (Curl_altsvc_init true true) "cache.txt"
       (Some ([] ++ "  # h1 example.com 80" :: []))
     = Curl_altsvc_load lp64 (Curl_altsvc_init true true) "cache.txt"
         (Some ([] ++ [])).
Proof.
  split; [reflexivity|].
  apply (altsvc_load_skips_line lp64 (Curl_altsvc_init true true) "cache.txt"
           [] [] "  # h1 example.com 80").
  left. reflexivity.
Defined.

(** ** What a save does to the files *)

Lemma save_entries_written (E : save_env) (l : list altsvc) :
  fst (save_entries E l) = CURLE_OK ->
  snd (save_entries E l) = map (fun e => snd (altsvc_out E e)) l
  /\ Forall (fun e => fst (Curl_gmtime E (expires e)) = CURLE_OK) l.
Proof.
  induction l as [|e l IH]; cbn [save_entries map]; [split; [reflexivity|constructor]|].
  assert (Hout : fst (altsvc_out E e) = fst (Curl_gmtime E (expires e))).
  { unfold altsvc_out. destruct (Curl_gmtime E (expires e)) as [r stamp].
    destruct r; reflexivity. }
  destruct (altsvc_out E e) as [result line]. cbn [fst snd] in *.
  destruct result; [|discriminate].
  destruct (save_entries E l) as [r lines]. cbn [fst snd] in *.
  intros Hr. destruct (IH Hr) as [-> Hall].
  split; [reflexivity|]. constructor; [symmetry; exact Hout|exact Hall].
Qed.

(** X20: a save replaces the target only by a whole cache and cleans up
    after itself.  When the rename onto the target happened, the result is
    CURLE_OK and the stream holds the two comment lines and one line for
    every entry of the list, none left out for its expiry.  When the result
    is not CURLE_OK, no rename happened, and a temporary file that was
    handed out is unlinked.  With the read-only flag set, nothing is opened
    or written. *)
Theorem save_replaces_only_when_complete (E : save_env) (W : save_world)
    (a : altsvcinfo) (file : option string) :
  let eff := Curl_altsvc_save E W (Some a) file in
  (s_renamed eff = true ->
   s_result eff = SAVE_OK
   /\ s_written eff
      = save_header ++ map (fun e => snd (altsvc_out E e)) (asi_list a)
   /\ List.length (s_written eff) = 2 + List.length (asi_list a))
  /\ (s_result eff <> SAVE_OK ->
      s_renamed eff = false
      /\ (s_opened eff <> None -> has_tempstore W = true ->
          s_unlinked eff = true))
  /\ (Z.land (asi_flags a) CURLALTSVC_READONLYFILE <> 0%Z ->
      eff = save_untouched).
Proof.
  unfold Curl_altsvc_save.
  destruct (match file with
            | Some f1 => Some f1
            | None => asi_filename a
            end) as [f1|];
    [|cbn; repeat split; try discriminate; congruence].
  destruct (Z.land (asi_flags a) CURLALTSVC_READONLYFILE =? 0)%Z eqn:Hro;
    cbn [negb orb];
    [|cbn; repeat split; try discriminate; congruence].
  apply Z.eqb_eq in Hro.
  destruct (String.length f1 =? 0);
    [cbn; repeat split; try discriminate; congruence|].
  destruct (negb (fopen_ok W));
    [cbn; repeat split; try discriminate; congruence|].
  pose proof (save_entries_written E (asi_list a)) as Hw.
  destruct (save_entries E (asi_list a)) as [result lines].
  cbn [fst snd] in Hw.
  destruct result.
  - destruct (Hw eq_refl) as [-> _].
    destruct (has_tempstore W); [destruct (rename_ok W)|];
      cbn [s_result s_written s_renamed s_unlinked s_opened];
      repeat split; try discriminate; try congruence;
      rewrite List.length_app, length_map; reflexivity.
  - cbn [s_result s_written s_renamed s_unlinked s_opened].
    repeat split; try discriminate; try congruence.
Qed.

Lemma save_replaces_only_when_complete_witness :
  s_renamed (Curl_altsvc_save sample_env all_good
               (Some (mk_altsvcinfo sample_cache None 8)) (Some "cache.txt"))
  = true
  /\ List.length
       (s_written (Curl_altsvc_save sample_env all_good
                     (Some (mk_altsvcinfo sample_cache None 8))
                     (Some "cache.txt")))
     = 2 + List.length sample_cache.
Proof.
  split; [reflexivity|].
  exact (proj2 (proj2
           (proj1 (save_replaces_only_when_complete sample_env all_good
                     (mk_altsvcinfo sample_cache None 8) (Some "cache.txt"))
                  eq_refl))).
Defined.

(** X21: a save without a file name writes to the file of the last load.
    After a load of [f], when the cache is not read-only, [f] is not empty
    and Curl_fopen succeeds, a save that is given no name opens [f]. *)
Theorem save_reuses_loaded_name (E : save_env) (W : save_world) (B : build)
    (a a' : altsvcinfo) (f : string) (fp : option (list string))
    (r : CURLcode) :
  Curl_altsvc_load B a f fp = (r, a') ->
  Z.land (asi_flags a) CURLALTSVC_READONLYFILE = 0%Z ->
  f <> "" ->
  fopen_ok W = true ->
  s_opened (Curl_altsvc_save E W (Some a') None) = Some f.
Proof.
  intros Hload Hro Hf Hopen.
  assert (Ha' : asi_filename a' = Some f /\ asi_flags a' = asi_flags a).
  { unfold Curl_altsvc_load, altsvc_load in Hload.
    destruct fp; injection Hload as _ <-; split; reflexivity. }
  destruct Ha' as [Hname Hflags].
  unfold Curl_altsvc_save. rewrite Hname, Hflags, Hro, Hopen.
  replace (String.length f =? 0) with false
    by (destruct f; [congruence|reflexivity]).
  cbn [Z.eqb negb orb].
  destruct (save_entries E (asi_list a')) as [result lines].
  destruct result; [|reflexivity].
  destruct (has_tempstore W); [destruct (rename_ok W)|]; reflexivity.
Qed.

Lemma save_reuses_loaded_name_witness :
  (Z.land (asi_flags (Curl_altsvc_init true true)) CURLALTSVC_READONLYFILE
   = 0%Z
   /\ "cache.txt" <> "" /\ fopen_ok all_good = true)
  /\ s_opened
       (Curl_altsvc_save sample_env all_good
          (Some (snd (Curl_altsvc_load lp64 (Curl_altsvc_init true true)
                        "cache.txt" None)))
          None)
     = Some "cache.txt".
Proof.
  split; [repeat split; discriminate|].
  apply (save_reuses_loaded_name sample_env all_good lp64
           (Curl_altsvc_init true true) _ "cache.txt" None CURLE_OK);
    [reflexivity|reflexivity|discriminate|reflexivity].
Defined.
